(** * Quizzer IRC bot: admin verification and the quiz-round state machine

    A shallow embedding of [src/admin_verifier.py], [src/quiz_game.py],
    [src/admin.py] (stop_game, set_rate_limit and the admin list) and
    [src/bot.py] (on_disconnect, on_join), followed by the properties of
    the specification that concern them and by further properties of the
    code.

    Conventions of the embedding.
    - Python [str] is [string]; [lower]/[upper] fold the ASCII letters only.
    - [time.time()] is an integer number of seconds ([Z]), read once per
      handler call and passed in as [now].
    - Dictionaries whose iteration order reaches an output (questions,
      participants, scores) are insertion-ordered association lists
      ([Dict]); the others are [gmap]; Python sets are [gset].
    - What the program sends ([connection.privmsg], [notice], [mode]) and
      what it persists ([store_score]) is collected in an output trace.
    - What the program calls from outside (bcrypt, sha256, re.match, the
      file system, the random generator) is passed in as a parameter.
    - A call of [start_quiz] runs in the thread of its timer and sleeps
      between two questions; other handlers can run during a sleep, so the
      call is also given sleep by sleep ([start_quiz_begin],
      [start_quiz_wake]). *)

From Stdlib Require Import Ascii.
From stdpp Require Import gmap strings list pretty sorting.

Open Scope string_scope.
Open Scope list_scope.
Open Scope Z_scope.

(** ** Python strings *)

Module Py.

Definition ascii_lower (c : ascii) : ascii :=
  let n := nat_of_ascii c in
  if ((65 <=? n) && (n <=? 90))%nat then ascii_of_nat (n + 32) else c.

Definition ascii_upper (c : ascii) : ascii :=
  let n := nat_of_ascii c in
  if ((97 <=? n) && (n <=? 122))%nat then ascii_of_nat (n - 32) else c.

Fixpoint map_string (f : ascii -> ascii) (s : string) : string :=
  match s with
  | EmptyString => EmptyString
  | String c s' => String (f c) (map_string f s')
  end.

(** [s.lower()] and [s.upper()] *)
Definition lower : string -> string := map_string ascii_lower.
Definition upper : string -> string := map_string ascii_upper.

(** [c in s] for a one-character [c] *)
Fixpoint contains (c : ascii) (s : string) : bool :=
  match s with
  | EmptyString => false
  | String d s' => if Ascii.eqb d c then true else contains c s'
  end.

(** [s.split(sep)] for a one-character separator: ["".split("!") = [""]],
    ["a!".split("!") = ["a"; ""]]. *)
Fixpoint split (sep : ascii) (s : string) : list string :=
  match s with
  | EmptyString => [EmptyString]
  | String c s' =>
      if Ascii.eqb c sep then EmptyString :: split sep s'
      else match split sep s' with
           | h :: t => String c h :: t
           | [] => [String c EmptyString]
           end
  end.

(** [s.replace(old, new)] for a non-empty [old]: occurrences are replaced
    from the left and do not overlap; [skip] counts the characters of the
    occurrence just replaced that are still to be dropped. *)
Fixpoint replace_from (old new : string) (skip : nat) (s : string) : string :=
  match s with
  | EmptyString => EmptyString
  | String c s' =>
      match skip with
      | S k => replace_from old new k s'
      | O =>
          if String.prefix old s
          then new +:+ replace_from old new (String.length old - 1) s'
          else String c (replace_from old new O s')
      end
  end.

Definition replace (old new s : string) : string := replace_from old new O s.

(** [s.endswith(suffix)] *)
Definition endswith (suffix s : string) : bool :=
  let n := String.length s in
  let k := String.length suffix in
  ((k <=? n)%nat && String.eqb (String.substring (n - k) k s) suffix).

(** *** Regular expressions

    Python's [re.match(pattern, s)] for the patterns made of ordinary
    characters, of [.] (any character but a newline) and of [*] after one
    of these (any number of repetitions): whether some prefix of [s]
    matches the pattern.  A pattern with another special character is
    outside this model ([None]). *)

Inductive atom := Lit (c : ascii) | AnyChar.

Definition special (c : ascii) : bool := contains c "\^$+?{}[]()|*".

(** The items of a pattern: an atom, and whether a [*] follows it. *)
Fixpoint re_items (cs : list ascii) : option (list (atom * bool)) :=
  match cs with
  | [] => Some []
  | c :: rest =>
      if special c then None
      else
        let a := if Ascii.eqb c "."%char then AnyChar else Lit c in
        match rest with
        | "*"%char :: rest' => cons (a, true) <$> re_items rest'
        | _ => cons (a, false) <$> re_items rest
        end
  end.

Definition atom_ok (a : atom) (c : ascii) : bool :=
  match a with
  | Lit c' => Ascii.eqb c' c
  | AnyChar => negb (Ascii.eqb c (ascii_of_nat 10))
  end.

(** Does a prefix of [s] match the items? *)
Fixpoint re_prefix (items : list (atom * bool)) (s : string) : bool :=
  match items with
  | [] => true
  | (a, false) :: r =>
      match s with
      | String c s' => atom_ok a c && re_prefix r s'
      | EmptyString => false
      end
  | (a, true) :: r =>
      (fix star (s : string) : bool :=
         re_prefix r s
         || match s with
            | String c s' => atom_ok a c && star s'
            | EmptyString => false
            end) s
  end.

Definition re_match (pattern s : string) : option bool :=
  (λ items, re_prefix items s) <$> re_items (String.list_ascii_of_string pattern).

End Py.

(** ** Insertion-ordered dictionaries

    A Python [dict] keeps its keys in insertion order; assigning to a key
    that is present replaces the value in place, assigning to a new key
    appends it. *)

Module Dict.
Section Dict.
Context {V : Type}.

Definition t := list (string * V).

Fixpoint get (k : string) (d : list (string * V)) : option V :=
  match d with
  | [] => None
  | (k', v) :: d' => if String.eqb k' k then Some v else get k d'
  end.

Definition mem (k : string) (d : list (string * V)) : bool :=
  match get k d with Some _ => true | None => false end.

Fixpoint set (k : string) (v : V) (d : list (string * V)) : list (string * V) :=
  match d with
  | [] => [(k, v)]
  | (k', v') :: d' =>
      if String.eqb k' k then (k', v) :: d' else (k', v') :: set k v d'
  end.

Definition keys (d : list (string * V)) : list string := d.*1.
Definition values (d : list (string * V)) : list V := d.*2.

(** [not d] / [if d:] *)
Definition is_empty (d : list (string * V)) : bool :=
  match d with [] => true | _ => false end.
End Dict.
Arguments t : clear implicits.
End Dict.

(** ** src/admin_verifier.py *)

Module Verifier.

(** The hashing back ends, which are not code of the repository:
    [HAS_BCRYPT] says whether [import bcrypt] succeeded; [bcrypt_checkpw]
    is [None] when the call raises; [sha256_hexdigest] is
    [hashlib.sha256(p.encode('utf-8')).hexdigest()]. *)
Record Crypto := {
  HAS_BCRYPT : bool;
  bcrypt_checkpw : string -> string -> option bool;
  sha256_hexdigest : string -> string
}.

(** The fields of [AdminVerifier] that verification reads or writes.
    [failed_attempts] maps a nick to [(count, lockout_until)], [sessions]
    to [(expiry_time, token)]; [hostmasks] is
    [hostmask_settings.get('hostmasks', {})]. *)
Record AdminVerifier := {
  admin_nicks : gset string;
  verification_method : string;
  sessions : gmap string (Z * string);
  session_timeout : Z;
  failed_attempts : gmap string (Z * Z);
  max_attempts : Z;
  lockout_duration : Z;
  password_hashes : gmap string string;
  hostmasks : gmap string (list string)
}.

Definition set_sessions (s : gmap string (Z * string)) (v : AdminVerifier) :=
  {| admin_nicks := admin_nicks v; verification_method := verification_method v;
     sessions := s; session_timeout := session_timeout v;
     failed_attempts := failed_attempts v; max_attempts := max_attempts v;
     lockout_duration := lockout_duration v;
     password_hashes := password_hashes v; hostmasks := hostmasks v |}.

Definition set_failed_attempts (f : gmap string (Z * Z)) (v : AdminVerifier) :=
  {| admin_nicks := admin_nicks v; verification_method := verification_method v;
     sessions := sessions v; session_timeout := session_timeout v;
     failed_attempts := f; max_attempts := max_attempts v;
     lockout_duration := lockout_duration v;
     password_hashes := password_hashes v; hostmasks := hostmasks v |}.

(** [__init__], without the loading of the password files: the hashes
    found there are passed in, keyed as [_load_passwords] keys them. *)
Definition init (nicks : list string) (method : string)
    (timeout attempts duration : Z)
    (hashes : gmap string string) (masks : gmap string (list string)) :=
  {| admin_nicks := list_to_set (Py.lower <$> nicks);
     verification_method := Py.lower method;
     sessions := ∅; session_timeout := timeout;
     failed_attempts := ∅; max_attempts := attempts;
     lockout_duration := duration;
     password_hashes := hashes; hostmasks := masks |}.

Definition is_bcrypt_hash (h : string) : bool :=
  String.prefix "$2b$" h || String.prefix "$2a$" h.

Definition _verify_password (cr : Crypto) (plaintext hashed : string) : bool :=
  if HAS_BCRYPT cr then
    if is_bcrypt_hash hashed then
      match bcrypt_checkpw cr plaintext hashed with
      | Some b => b
      | None => false
      end
    else false
  else String.eqb (sha256_hexdigest cr plaintext) hashed.

Definition is_admin (v : AdminVerifier) (nick : string) : bool :=
  bool_decide (Py.lower nick ∈ admin_nicks v).

Definition msg_locked_out (remaining : Z) : string :=
  "Too many failed attempts. Locked out for " +:+ pretty remaining +:+
  " more seconds.".
Definition msg_not_admin : string := "You are not an admin.".
Definition msg_no_password : string :=
  "No password set for this admin. Contact bot owner.".
Definition msg_success (timeout : Z) : string :=
  "Admin verification successful. Session valid for " +:+
  pretty (timeout `div` 60) +:+ " minutes.".
Definition msg_incorrect : string := "Incorrect password.".

(** The first critical section of [verify_password]: [inl remaining] when
    the nick is locked out, else the table with an expired record
    deleted. *)
Definition check_lockout (v : AdminVerifier) (nick_lower : string) (now : Z)
    : Z + gmap string (Z * Z) :=
  match failed_attempts v !! nick_lower with
  | Some (count, lockout_until) =>
      if bool_decide (now < lockout_until)
      then inl (lockout_until - now)
      else inr (delete nick_lower (failed_attempts v))
  | None => inr (failed_attempts v)
  end.

(** The last critical section: the bookkeeping of a failed attempt. *)
Definition record_failure (v : AdminVerifier) (nick_lower : string) (now : Z)
    : gmap string (Z * Z) :=
  match failed_attempts v !! nick_lower with
  | None => <[nick_lower := (1, 0)]> (failed_attempts v)
  | Some (count, _) =>
      let count := count + 1 in
      if bool_decide (count >= max_attempts v)
      then <[nick_lower := (count, now + lockout_duration v)]> (failed_attempts v)
      else <[nick_lower := (count, 0)]> (failed_attempts v)
  end.

(** [verify_password(nick, password)]; [token] is the value of
    [secrets.token_urlsafe(32)]. *)
Definition verify_password (cr : Crypto) (v : AdminVerifier)
    (nick password : string) (now : Z) (token : string)
    : AdminVerifier * (bool * string) :=
  let nick_lower := Py.lower nick in
  match check_lockout v nick_lower now with
  | inl remaining => (v, (false, msg_locked_out remaining))
  | inr fa =>
      let v := set_failed_attempts fa v in
      if negb (is_admin v nick) then (v, (false, msg_not_admin))
      else
        match password_hashes v !! nick_lower with
        | None => (v, (false, msg_no_password))
        | Some hashed =>
            if _verify_password cr password hashed then
              let v := set_sessions
                         (<[nick_lower := (now + session_timeout v, token)]>
                            (sessions v)) v in
              let v := set_failed_attempts
                         (delete nick_lower (failed_attempts v)) v in
              (v, (true, msg_success (session_timeout v)))
            else
              let v := set_failed_attempts (record_failure v nick_lower now) v in
              (v, (false, msg_incorrect))
        end
  end.

Definition verify_session (v : AdminVerifier) (nick : string) (now : Z)
    : AdminVerifier * bool :=
  let nick_lower := Py.lower nick in
  match sessions v !! nick_lower with
  | None => (v, false)
  | Some (expiry, token) =>
      if bool_decide (now > expiry)
      then (set_sessions (delete nick_lower (sessions v)) v, false)
      else (v, true)
  end.

(** One turn of the loop of [_match_hostmask]: does field [h] of the
    hostmask pass field [p] of the pattern?  [re_match regex s] says
    whether Python's [re.match(regex, s)] finds a match. *)
Definition match_field (re_match : string -> string -> bool) (p h : string)
    : bool :=
  if String.eqb p "*" then true
  else if Py.contains "*"%char p
       then re_match (Py.replace "*" ".*" p) h
       else String.eqb p h.

(** [zip] stops at the shorter list; the lengths are equal when the loop
    is reached. *)
Fixpoint match_fields (re_match : string -> string -> bool)
    (ps hs : list string) : bool :=
  match ps, hs with
  | p :: ps', h :: hs' =>
      if match_field re_match p h then match_fields re_match ps' hs' else false
  | _, _ => true
  end.

Definition _match_hostmask (re_match : string -> string -> bool)
    (hostmask pattern : string) : bool :=
  let pattern_parts := Py.split "!"%char pattern in
  let hostmask_parts := Py.split "!"%char hostmask in
  if negb (length pattern_parts =? length hostmask_parts)%nat then false
  else match_fields re_match pattern_parts hostmask_parts.

Definition verify_hostmask (re_match : string -> string -> bool)
    (v : AdminVerifier) (nick hostmask : string) : bool :=
  if negb (is_admin v nick) then false
  else
    match hostmasks v !! Py.lower nick with
    | None => false
    | Some allowed => existsb (_match_hostmask re_match hostmask) allowed
    end.

(** Truth value of an optional argument that is a string. *)
Definition given (o : option string) : bool :=
  match o with
  | Some s => negb (String.eqb s "")
  | None => false
  end.

(** [verify(nick, method, password, hostmask)] *)
Definition verify (cr : Crypto) (re_match : string -> string -> bool)
    (v : AdminVerifier) (nick : string) (method password hostmask : option string)
    (now : Z) (token : string) : AdminVerifier * bool :=
  let method := if given method then default "" method
                else verification_method v in
  if negb (is_admin v nick) then (v, false)
  else if String.eqb method "nickserv" then (v, false)
  else if String.eqb method "password" then
    let (v, live) := verify_session v nick now in
    if live then (v, true)
    else if given password then
      let (v, r) := verify_password cr v nick (default "" password) now token in
      (v, r.1)
    else (v, false)
  else if String.eqb method "hostmask" then
    if given hostmask
    then (v, verify_hostmask re_match v nick (default "" hostmask))
    else (v, false)
  else if String.eqb method "combined" then
    let (v, live) := verify_session v nick now in
    if live then (v, true)
    else
      let (v, success) :=
        if given password then
          let (v, r) :=
            verify_password cr v nick (default "" password) now token in
          (v, r.1)
        else (v, false) in
      if success then (v, true)
      else if given hostmask
      then (v, verify_hostmask re_match v nick (default "" hostmask))
      else (v, false)
  else (v, false).

(** The remaining lockout of a nick, as [verify_password] finds it. *)
Definition locked_out (v : AdminVerifier) (nick : string) (now : Z)
    : option Z :=
  match check_lockout v (Py.lower nick) now with
  | inl remaining => Some remaining
  | inr _ => None
  end.

(** No record of [failed_attempts] counts more than one failure or carries
    a lockout time. *)
Definition never_locked (v : AdminVerifier) : Prop :=
  forall n c u, failed_attempts v !! n = Some (c, u) -> c = 1 /\ u = 0.

(** A series of calls [(nick, password, now, token)] of [verify_password],
    with the answers in order. *)
Fixpoint verify_passwords (cr : Crypto) (v : AdminVerifier)
    (calls : list (string * string * Z * string))
    : AdminVerifier * list (bool * string) :=
  match calls with
  | [] => (v, [])
  | (nick, password, now, token) :: rest =>
      let (v, r) := verify_password cr v nick password now token in
      let (v, rs) := verify_passwords cr v rest in
      (v, r :: rs)
  end.

(** When field [h] of a hostmask passes field [p] of a pattern. *)
Definition field_matches (re_match : string -> string -> bool)
    (p h : string) : Prop :=
  p = "*" \/
  (p <> "*" /\ Py.contains "*"%char p = true /\
   re_match (Py.replace "*" ".*" p) h = true) \/
  (Py.contains "*"%char p = false /\ p = h).

(** The fields of a mask in the words of the specification: delimited by
    [!] and by [@]. *)
Definition spec_fields (s : string) : list string :=
  Py.split "!"%char s ≫= Py.split "@"%char.

End Verifier.

(** ** src/quiz_game.py *)

Module Quiz.

(** A loaded question: [{"answers": ..., "correct": ..., "category": ...}] *)
Record qdata := {
  answers : Dict.t string;
  correct : string;
  category : string
}.

(** An entry of a question file, as [json.load] returns it. *)
Record qrecord := {
  q_question : string;
  q_category : string;
  q_answers : Dict.t string;
  q_correct : string
}.

(** What [quiz_game.py] takes from outside: the directory listing of
    [quiz_data], the reading of a question file ([None] when [open] or
    [json.load] raises FileNotFoundError or JSONDecodeError),
    [html.unescape], and [find_category_match] and
    [get_category_hierarchy] of [category_hierarchy]. *)
Record World := {
  listdir : list string;
  read_json : string -> option (list qrecord);
  html_unescape : string -> string;
  find_category_match : string -> option string * option string * bool;
  get_category_hierarchy : Dict.t (option (list string))
}.

(** The text templates of the messages, with the values they interpolate. *)
Inductive msg :=
| Blank
| CategoryLine (q_category : string)
| QuestionLine (question_number : nat) (question : string)
| AnswerLine (label answer : string)
| TimeLimitLine (answer_time_limit : Z)
| CorrectAnswerWas (correct_answer correct_answer_text : string)
| QuizEnded
| WinnersLine (winners : list string) (max_score : Z)
| ScoresHeader
| ScoreLine (padded_user : string) (score : Z)
| PleaseWait (user : string)
| AnsweredCorrect (user : string)
| AnsweredWrong (user : string)
| QuizCancelledNoParticipants
| UnableToLoadQuestions
| CategoryNotFound (category : string)
| UnableToLoadCategory (category : string)
| QuizAlreadyActive
| QuizAlreadyScheduled
| QuizWillStart (display_category : string)
| RoundWillConsist (question_count : nat)
| HowToAnswer
| NoQuizAccepting
| QuizInProgress
| AlreadyRegistered
| HasJoined (user : string)
| StoppedByAdmin
| NoActiveGame
| InterruptedWarning
| PartialScoresHeader
| PartialScoreLine (user : string) (score : Z)
| CancelledStartNew.

(** The effects on the connection and on the score database. *)
Inductive event :=
| Privmsg (target : string) (m : msg)
| Notice (target : string) (m : msg)
| Mode (target flags : string)
| StoreScore (user : string) (score : Z).

Inductive exn := KeyError | ValueError.

(** How a call ends: it returns, or an exception leaves it. *)
Inductive outcome := Returned | Raised (e : exn).

(** The attributes of [QuizGame], and the module-level [RATE_LIMIT]. *)
Record QuizGame := {
  channel : string;
  questions : Dict.t qdata;
  current_question : option string;
  participants : Dict.t Z;
  scores : Dict.t Z;
  game_active : bool;
  question_count : nat;
  answer_time_limit : Z;
  joining_allowed : bool;
  asked_questions : gset string;
  last_command_time : gmap string Z;
  answered_participants : gmap string bool;
  game_interrupted : bool;
  RATE_LIMIT : Z
}.

Definition set_questions (x : Dict.t qdata) (g : QuizGame) : QuizGame :=
  {| channel := channel g; questions := x; current_question :=
     current_question g; participants := participants g; scores := scores
     g; game_active := game_active g; question_count := question_count g;
     answer_time_limit := answer_time_limit g; joining_allowed :=
     joining_allowed g; asked_questions := asked_questions g;
     last_command_time := last_command_time g; answered_participants :=
     answered_participants g; game_interrupted := game_interrupted g;
     RATE_LIMIT := RATE_LIMIT g |}.

Definition set_current_question (x : option string) (g : QuizGame) : QuizGame :=
  {| channel := channel g; questions := questions g; current_question :=
     x; participants := participants g; scores := scores g; game_active :=
     game_active g; question_count := question_count g; answer_time_limit
     := answer_time_limit g; joining_allowed := joining_allowed g;
     asked_questions := asked_questions g; last_command_time :=
     last_command_time g; answered_participants := answered_participants
     g; game_interrupted := game_interrupted g; RATE_LIMIT := RATE_LIMIT g |}.

Definition set_participants (x : Dict.t Z) (g : QuizGame) : QuizGame :=
  {| channel := channel g; questions := questions g; current_question :=
     current_question g; participants := x; scores := scores g;
     game_active := game_active g; question_count := question_count g;
     answer_time_limit := answer_time_limit g; joining_allowed :=
     joining_allowed g; asked_questions := asked_questions g;
     last_command_time := last_command_time g; answered_participants :=
     answered_participants g; game_interrupted := game_interrupted g;
     RATE_LIMIT := RATE_LIMIT g |}.

Definition set_scores (x : Dict.t Z) (g : QuizGame) : QuizGame :=
  {| channel := channel g; questions := questions g; current_question :=
     current_question g; participants := participants g; scores := x;
     game_active := game_active g; question_count := question_count g;
     answer_time_limit := answer_time_limit g; joining_allowed :=
     joining_allowed g; asked_questions := asked_questions g;
     last_command_time := last_command_time g; answered_participants :=
     answered_participants g; game_interrupted := game_interrupted g;
     RATE_LIMIT := RATE_LIMIT g |}.

Definition set_game_active (x : bool) (g : QuizGame) : QuizGame :=
  {| channel := channel g; questions := questions g; current_question :=
     current_question g; participants := participants g; scores := scores
     g; game_active := x; question_count := question_count g;
     answer_time_limit := answer_time_limit g; joining_allowed :=
     joining_allowed g; asked_questions := asked_questions g;
     last_command_time := last_command_time g; answered_participants :=
     answered_participants g; game_interrupted := game_interrupted g;
     RATE_LIMIT := RATE_LIMIT g |}.

Definition set_joining_allowed (x : bool) (g : QuizGame) : QuizGame :=
  {| channel := channel g; questions := questions g; current_question :=
     current_question g; participants := participants g; scores := scores
     g; game_active := game_active g; question_count := question_count g;
     answer_time_limit := answer_time_limit g; joining_allowed := x;
     asked_questions := asked_questions g; last_command_time :=
     last_command_time g; answered_participants := answered_participants
     g; game_interrupted := game_interrupted g; RATE_LIMIT := RATE_LIMIT g |}.

Definition set_asked_questions (x : gset string) (g : QuizGame) : QuizGame :=
  {| channel := channel g; questions := questions g; current_question :=
     current_question g; participants := participants g; scores := scores
     g; game_active := game_active g; question_count := question_count g;
     answer_time_limit := answer_time_limit g; joining_allowed :=
     joining_allowed g; asked_questions := x; last_command_time :=
     last_command_time g; answered_participants := answered_participants
     g; game_interrupted := game_interrupted g; RATE_LIMIT := RATE_LIMIT g |}.

Definition set_last_command_time (x : gmap string Z) (g : QuizGame) : QuizGame :=
  {| channel := channel g; questions := questions g; current_question :=
     current_question g; participants := participants g; scores := scores
     g; game_active := game_active g; question_count := question_count g;
     answer_time_limit := answer_time_limit g; joining_allowed :=
     joining_allowed g; asked_questions := asked_questions g;
     last_command_time := x; answered_participants :=
     answered_participants g; game_interrupted := game_interrupted g;
     RATE_LIMIT := RATE_LIMIT g |}.

Definition set_answered_participants (x : gmap string bool) (g : QuizGame) : QuizGame :=
  {| channel := channel g; questions := questions g; current_question :=
     current_question g; participants := participants g; scores := scores
     g; game_active := game_active g; question_count := question_count g;
     answer_time_limit := answer_time_limit g; joining_allowed :=
     joining_allowed g; asked_questions := asked_questions g;
     last_command_time := last_command_time g; answered_participants := x;
     game_interrupted := game_interrupted g; RATE_LIMIT := RATE_LIMIT g |}.

Definition set_game_interrupted (x : bool) (g : QuizGame) : QuizGame :=
  {| channel := channel g; questions := questions g; current_question :=
     current_question g; participants := participants g; scores := scores
     g; game_active := game_active g; question_count := question_count g;
     answer_time_limit := answer_time_limit g; joining_allowed :=
     joining_allowed g; asked_questions := asked_questions g;
     last_command_time := last_command_time g; answered_participants :=
     answered_participants g; game_interrupted := x; RATE_LIMIT :=
     RATE_LIMIT g |}.

Definition set_RATE_LIMIT (x : Z) (g : QuizGame) : QuizGame :=
  {| channel := channel g; questions := questions g; current_question :=
     current_question g; participants := participants g; scores := scores
     g; game_active := game_active g; question_count := question_count g;
     answer_time_limit := answer_time_limit g; joining_allowed :=
     joining_allowed g; asked_questions := asked_questions g;
     last_command_time := last_command_time g; answered_participants :=
     answered_participants g; game_interrupted := game_interrupted g;
     RATE_LIMIT := x |}.

(** [QuizGame(channel, question_count, answer_time_limit)] *)
Definition init (channel : string) (question_count : nat)
    (answer_time_limit rate_limit : Z) : QuizGame :=
  {| channel := channel; questions := []; current_question := None;
     participants := []; scores := []; game_active := false;
     question_count := question_count;
     answer_time_limit := answer_time_limit; joining_allowed := false;
     asked_questions := ∅; last_command_time := ∅;
     answered_participants := ∅; game_interrupted := false;
     RATE_LIMIT := rate_limit |}.

Definition set_rate_limit (new_limit : Z) (g : QuizGame) : QuizGame :=
  set_RATE_LIMIT new_limit g.

Definition get_rate_limit (g : QuizGame) : Z := RATE_LIMIT g.

Definition reset_game (g : QuizGame) : QuizGame :=
  let g := set_participants [] g in
  let g := set_scores [] g in
  let g := set_current_question None g in
  let g := set_game_active false g in
  let g := set_joining_allowed false g in
  set_game_interrupted false g.

Definition reset_current_question (g : QuizGame) : QuizGame :=
  set_answered_participants ∅ (set_current_question None g).

Definition allow_joining (g : QuizGame) : QuizGame :=
  set_joining_allowed true g.

Definition questions_file (name : string) : string :=
  "quiz_data/" +:+ name +:+ "_questions.json".

(** The body of the [for q in questions_data] loop. *)
Definition load_entry (w : World) (g : QuizGame) (q : qrecord) : QuizGame :=
  let question_text := html_unescape w (q_question q) in
  if bool_decide (question_text ∈ asked_questions g) then g
  else
    let answers := prod_map id (html_unescape w) <$> q_answers q in
    set_questions
      (Dict.set question_text
         {| answers := answers; correct := q_correct q;
            category := q_category q |} (questions g)) g.

Definition load_questions_from_file (w : World) (filename : string)
    (g : QuizGame) : QuizGame * bool :=
  match read_json w filename with
  | Some questions_data => (foldl (load_entry w) g questions_data, true)
  | None => (g, false)
  end.

(** [for name in names: if not self.load_questions_from_file(...): return
    False] followed by [return True]. *)
Fixpoint load_files (w : World) (filenames : list string) (g : QuizGame)
    : QuizGame * bool :=
  match filenames with
  | [] => (g, true)
  | f :: fs =>
      let (g, ok) := load_questions_from_file w f g in
      if ok then load_files w fs g else (g, false)
  end.

Definition get_available_categories (w : World) : list string :=
  Py.replace "_questions.json" "" <$>
    filter (λ f, Py.endswith "_questions.json" f = true) (listdir w).

(** Truth value of a name that may be [None]. *)
Definition truthy (o : option string) : bool :=
  match o with
  | Some s => negb (String.eqb s "")
  | None => false
  end.

Definition load_questions (w : World) (category : string) (g : QuizGame)
    : QuizGame * bool :=
  let g := set_asked_questions ∅ (set_questions [] g) in
  if String.eqb category "random" then
    load_files w (questions_file <$> get_available_categories w) g
  else
    let '(main_cat, subcat, is_random) := find_category_match w category in
    let subcategories :=
      if truthy main_cat && is_random
      then match Dict.get (default "" main_cat) (get_category_hierarchy w) with
           | Some (Some l) => l
           | _ => []
           end
      else [] in
    match subcategories with
    | _ :: _ =>
        load_files w
          ((λ subcat_name, questions_file (Py.replace " " "_" subcat_name))
             <$> subcategories) g
    | [] =>
        if truthy subcat
        then load_questions_from_file w (questions_file (default "" subcat)) g
        else if truthy main_cat
        then load_questions_from_file w
               (questions_file (Py.replace " " "_" (default "" main_cat))) g
        else load_questions_from_file w (questions_file category) g
    end.

(** [connection.privmsg(self.channel, ...)] of each item in turn *)
Definition say (g : QuizGame) (ms : list msg) : list event :=
  Privmsg (channel g) <$> ms.

Definition ask_question (g : QuizGame) (question : string)
    (question_number : nat) (data : qdata) : QuizGame * list event :=
  if bool_decide (question ∈ asked_questions g) then (g, [])
  else
    let g := set_asked_questions ({[question]} ∪ asked_questions g) g in
    let g := reset_current_question g in
    let g := set_current_question (Some question) g in
    (g, say g ([Blank; CategoryLine (category data); Blank;
                QuestionLine question_number question]
               ++ ((λ '(label, answer), AnswerLine label answer)
                     <$> answers data)
               ++ [Blank; TimeLimitLine (answer_time_limit g); Blank])).

(** [self.questions[self.current_question]]: a KeyError when no question
    is current or the current one is not among the loaded questions. *)
Definition current_data (g : QuizGame) : option qdata :=
  match current_question g with
  | Some q => Dict.get q (questions g)
  | None => None
  end.

Definition show_results (g : QuizGame) : list event * outcome :=
  match current_data g with
  | None => ([], Raised KeyError)
  | Some data =>
      let correct_answer := correct data in
      match Dict.get correct_answer (answers data) with
      | None => ([], Raised KeyError)
      | Some correct_answer_text =>
          (say g [CorrectAnswerWas correct_answer correct_answer_text; Blank],
           Returned)
      end
  end.

(** [sorted(items, key=lambda x: x[1], reverse=True)]: descending by
    score, items of equal score in their original order. *)
Fixpoint insert_by_score (x : string * Z) (l : list (string * Z))
    : list (string * Z) :=
  match l with
  | [] => [x]
  | y :: l' =>
      if bool_decide (y.2 < x.2) then x :: y :: l'
      else y :: insert_by_score x l'
  end.

Definition sorted_by_score (items : list (string * Z)) : list (string * Z) :=
  foldl (λ acc x, insert_by_score x acc) [] items.

(** [max(xs)] of a non-empty sequence *)
Definition max_of (x : Z) (xs : list Z) : Z := foldl Z.max x xs.

Definition max_len (x : string) (xs : list string) : nat :=
  foldl Nat.max (String.length x) (String.length <$> xs).

Fixpoint spaces (n : nat) : string :=
  match n with
  | O => ""
  | S n' => String " " (spaces n')
  end.

(** [s.ljust(width)] *)
Definition ljust (width : nat) (s : string) : string :=
  s +:+ spaces (width - String.length s).

Definition end_quiz (g : QuizGame) : QuizGame * list event * outcome :=
  match scores g with
  | [] => (g, say g [Blank], Raised ValueError)
  | (user0, score0) :: others =>
      let max_score := max_of score0 (Dict.values others) in
      let winners :=
        Dict.keys (filter (λ x, x.2 = max_score) (scores g)) in
      let sorted_scores := sorted_by_score (scores g) in
      let max_username_length := max_len user0 (Dict.keys others) in
      let out :=
        say g ([Blank; QuizEnded; Blank; WinnersLine winners max_score; Blank;
                ScoresHeader; Blank]
               ++ ((λ '(user, score),
                      ScoreLine (ljust max_username_length user) score)
                     <$> sorted_scores)
               ++ [Blank])
        ++ [Mode (channel g) "-m"]
        ++ ((λ '(user, score), StoreScore user score) <$> scores g) in
      let g := set_game_active false g in
      let g := set_joining_allowed false g in
      (reset_game g, out, Returned)
  end.

(** The rate-limiting check at the head of [process_answer]. *)
Definition rate_limited (g : QuizGame) (user : string) (now : Z) : bool :=
  match last_command_time g !! user with
  | Some last => bool_decide (now - last < RATE_LIMIT g)
  | None => false
  end.

Definition process_answer (g : QuizGame) (user answer : string) (now : Z)
    : QuizGame * list event * outcome :=
  if rate_limited g user now
  then (g, say g [PleaseWait user], Returned)
  else
    let g := set_last_command_time (<[user := now]> (last_command_time g)) g in
    if negb (game_active g) || negb (Dict.mem user (participants g))
       || negb (bool_decide (is_Some (current_question g)))
    then (g, [], Returned)
    else if bool_decide (is_Some (answered_participants g !! user))
    then (g, [], Returned)
    else
      match current_data g with
      | None => (g, [], Raised KeyError)
      | Some data =>
          let correct_answer := correct data in
          if String.eqb (Py.upper answer) correct_answer then
            match Dict.get user (scores g) with
            | None => (g, [], Raised KeyError)
            | Some s =>
                let g := set_scores (Dict.set user (s + 1) (scores g)) g in
                let g := set_answered_participants
                           (<[user := true]> (answered_participants g)) g in
                (g, say g [AnsweredCorrect user], Returned)
            end
          else
            let g := set_answered_participants
                       (<[user := true]> (answered_participants g)) g in
            (g, say g [AnsweredWrong user], Returned)
      end.

(** [random.sample(population, k)] with [k <= len(population)]: [k] draws
    without replacement from a pool, the drawn slot being refilled with
    the last live element; [rng] gives the successive random numbers and
    [r mod n] is the draw below [n].  The pool kept here is its live
    part. *)
Fixpoint sample {A : Type} (rng : list nat) (pool : list A) (k : nat)
    : list A :=
  match k with
  | O => []
  | S k' =>
      let n := length pool in
      let j := (hd O rng `mod` n)%nat in
      match pool !! j, pool !! (n - 1)%nat with
      | Some x, Some y =>
          x :: sample (tl rng) (take (n - 1) (<[j := y]> pool)) k'
      | _, _ => []
      end
  end.

(** [for i, (question, data) in enumerate(questions, start=1)], when no
    other handler runs during the sleeps. *)
Fixpoint ask_all (g : QuizGame) (selected : list (string * qdata)) (i : nat)
    : QuizGame * list event * outcome :=
  match selected with
  | [] => (g, [], Returned)
  | (question, data) :: rest =>
      let (g, o1) := ask_question g question i data in
      match show_results g with
      | (o2, Raised e) => (g, o1 ++ o2, Raised e)
      | (o2, Returned) =>
          let '(g, o3, r) := ask_all g rest (S i) in
          (g, o1 ++ o2 ++ o3, r)
      end
  end.

(** The guards and the setting up of [start_quiz]: [inl] when it returns
    before the loop, [inr] with the questions drawn. *)
Definition start_quiz_setup (w : World) (rng : list nat) (g : QuizGame)
    (actual_category : string)
    : QuizGame * (list event + list (string * qdata)) :=
  if Dict.is_empty (participants g) then
    (reset_game g,
     inl [Privmsg (channel g) QuizCancelledNoParticipants;
          Mode (channel g) "-m"])
  else
    let (g, ok) := load_questions w actual_category g in
    if negb ok then (g, inl (say g [UnableToLoadQuestions]))
    else
      let g := set_game_active true g in
      let g := set_scores ((λ x, (x.1, 0)) <$> participants g) g in
      (g, inr (sample rng (questions g)
                 (question_count g `min` length (questions g))%nat)).

Definition start_quiz (w : World) (rng : list nat) (g : QuizGame)
    (actual_category : string) : QuizGame * list event * outcome :=
  match start_quiz_setup w rng g actual_category with
  | (g, inl out) => (g, out, Returned)
  | (g, inr selected) =>
      match ask_all g selected 1 with
      | (g, o1, Raised e) => (g, o1, Raised e)
      | (g, o1, Returned) =>
          let '(g, o2, r) := end_quiz g in (g, o1 ++ o2, r)
      end
  end.

(** A call of [start_quiz] suspended in [time.sleep]: the questions it
    has still to ask and the number of the next one. *)
Record thread := {
  remaining : list (string * qdata);
  next_number : nat
}.

Inductive status := Sleeping (th : thread) | Ended (r : outcome).

(** From the top of the loop to the next sleep, or through [end_quiz]
    when the loop is over. *)
Definition to_next_sleep (g : QuizGame) (selected : list (string * qdata))
    (i : nat) : QuizGame * list event * status :=
  match selected with
  | [] => let '(g, o, r) := end_quiz g in (g, o, Ended r)
  | (question, data) :: rest =>
      let (g, o) := ask_question g question i data in
      (g, o, Sleeping {| remaining := rest; next_number := S i |})
  end.

(** The timer fires: [start_quiz] runs to its first sleep. *)
Definition start_quiz_begin (w : World) (rng : list nat) (g : QuizGame)
    (actual_category : string) : QuizGame * list event * status :=
  match start_quiz_setup w rng g actual_category with
  | (g, inl out) => (g, out, Ended Returned)
  | (g, inr selected) => to_next_sleep g selected 1
  end.

(** A sleep returns: [show_results], then on to the next sleep. *)
Definition start_quiz_wake (g : QuizGame) (th : thread)
    : QuizGame * list event * status :=
  match show_results g with
  | (o1, Raised e) => (g, o1, Ended (Raised e))
  | (o1, Returned) =>
      let '(g, o2, st) := to_next_sleep g (remaining th) (next_number th) in
      (g, o1 ++ o2, st)
  end.

(** [handle_start_command]; the last component is the category of the
    [threading.Timer(45, start_quiz, ...)] it starts, if it starts one. *)
Definition handle_start_command (w : World) (g : QuizGame)
    (category user : string) : QuizGame * list event * option string :=
  let resolved : option (string * string) :=
    if String.eqb (Py.lower category) "random" then Some ("random", "random")
    else
      let '(main_cat, subcat, is_random) := find_category_match w category in
      if negb (truthy main_cat) then None
      else
        let main_cat := default "" main_cat in
        if truthy subcat then
          let subcat := default "" subcat in
          Some (subcat,
                Py.replace (main_cat +:+ " ") "" (Py.replace "_" " " subcat))
        else Some (Py.replace " " "_" main_cat, main_cat) in
  match resolved with
  | None => (g, [Notice user (CategoryNotFound category)], None)
  | Some (formatted_category, display_category) =>
      let (g, ok) := load_questions w formatted_category g in
      if negb ok then (g, [Notice user (UnableToLoadCategory category)], None)
      else
        let announce g o :=
          let g := allow_joining g in
          (g,
           o ++ say g [Blank; QuizWillStart display_category;
                       RoundWillConsist (question_count g); HowToAnswer; Blank]
             ++ [Mode (channel g) "+m"],
           Some formatted_category) in
        if game_active g then announce g [Notice user QuizAlreadyActive]
        else if joining_allowed g
        then (g, [Notice user QuizAlreadyScheduled], None)
        else announce g []
  end.

Definition handle_join_command (g : QuizGame) (user : string)
    : QuizGame * list event :=
  if negb (game_active g) && negb (joining_allowed g)
  then (g, [Notice user NoQuizAccepting])
  else if game_active g then (g, [Notice user QuizInProgress])
  else if Dict.mem user (participants g)
  then (g, [Notice user AlreadyRegistered])
  else (set_participants (Dict.set user 0 (participants g)) g,
        [Privmsg (channel g) (HasJoined user)]).

End Quiz.

(** ** src/admin.py *)

Module Admin.
Import Quiz.

(** [AdminCommands.stop_game] *)
Definition stop_game (g : QuizGame) (nick : string) : QuizGame * list event :=
  if game_active g
  then (set_game_active false g, [Privmsg (channel g) StoppedByAdmin])
  else (g, [Privmsg nick NoActiveGame]).

End Admin.

(** ** src/bot.py *)

Module Bot.
Import Quiz.

(** The attributes of [QuizzerBot] that the handlers below use, and what
    is in flight beside the event loop: whether the connection is up, the
    categories of the [Timer(45, start_quiz, ...)] not yet fired, and the
    [start_quiz] calls sleeping between two questions. *)
Record QuizzerBot := {
  quiz_game : QuizGame;
  nickname : string;
  should_reconnect : bool;
  reconnection_attempts : nat;
  max_reconnection_attempts : nat;
  connected : bool;
  timers : list string;
  threads : list thread
}.

Definition with_game (g : QuizGame) (b : QuizzerBot) : QuizzerBot :=
  {| quiz_game := g; nickname := nickname b;
     should_reconnect := should_reconnect b;
     reconnection_attempts := reconnection_attempts b;
     max_reconnection_attempts := max_reconnection_attempts b;
     connected := connected b; timers := timers b; threads := threads b |}.

Definition with_connection (attempts : nat) (up : bool) (b : QuizzerBot)
    : QuizzerBot :=
  {| quiz_game := quiz_game b; nickname := nickname b;
     should_reconnect := should_reconnect b;
     reconnection_attempts := attempts;
     max_reconnection_attempts := max_reconnection_attempts b;
     connected := up; timers := timers b; threads := threads b |}.

Definition with_flight (ts : list string) (ths : list thread) (b : QuizzerBot)
    : QuizzerBot :=
  {| quiz_game := quiz_game b; nickname := nickname b;
     should_reconnect := should_reconnect b;
     reconnection_attempts := reconnection_attempts b;
     max_reconnection_attempts := max_reconnection_attempts b;
     connected := connected b; timers := ts; threads := ths |}.

Definition init (g : QuizGame) (nickname : string) : QuizzerBot :=
  {| quiz_game := g; nickname := nickname; should_reconnect := true;
     reconnection_attempts := 0; max_reconnection_attempts := 5;
     connected := true; timers := []; threads := [] |}.

(** What [on_disconnect] does to the game. *)
Definition cancel_active_game (g : QuizGame) : QuizGame :=
  if game_active g then
    let g := set_game_active false g in
    let g := set_game_interrupted true g in
    set_joining_allowed false g
  else g.

(** [on_disconnect]; [connect_ok] says whether [self.connect()] returns
    without raising. *)
Definition on_disconnect (b : QuizzerBot) (connect_ok : bool) : QuizzerBot :=
  let b := with_connection (reconnection_attempts b) false b in
  if negb (should_reconnect b) then b
  else
    let b := with_game (cancel_active_game (quiz_game b)) b in
    let attempts := S (reconnection_attempts b) in
    let b := with_connection attempts false b in
    if (max_reconnection_attempts b <? attempts)%nat then b
    else if connect_ok then with_connection 0 true b
    else b.

(** [on_join], for the bot whose current nickname is [nickname]. *)
Definition on_join (g : QuizGame) (nickname joined_nick : string)
    : QuizGame * list event :=
  if String.eqb (Py.lower joined_nick) (Py.lower nickname)
     && game_interrupted g
  then
    let partial :=
      if Dict.is_empty (scores g) then []
      else PartialScoresHeader
           :: ((λ '(user, score), PartialScoreLine user score)
                 <$> sorted_by_score (scores g)) in
    let out := say g ([Blank; InterruptedWarning] ++ partial
                      ++ [CancelledStartNew; Blank]) in
    let g := set_game_interrupted false g in
    let g := reset_game g in
    (g, out ++ [Mode (channel g) "-m"])
  else (g, []).

(** What happens to the bot: the commands it receives, the connection
    events, and the two ways a [start_quiz] call moves on. *)
Inductive input :=
| Pub_start (nick category : string)
| Priv_join (nick : string)
| Priv_answer (nick answer : string) (now : Z)
| Admin_stop_game (nick : string)
| Disconnected (connect_ok : bool)
| Joined (joined_nick : string)
| Timer_fires (rng : list nat)
| Sleep_ends (i : nat).

(** The call of [start_quiz] that sleeps runs on to its end, nothing
    happening in between; [fuel] bounds the sleeps. *)
Fixpoint sleep_through (fuel : nat) (g : QuizGame) (st : status)
    : QuizGame * list event * outcome :=
  match st with
  | Ended r => (g, [], r)
  | Sleeping th =>
      match fuel with
      | O => (g, [], Returned)
      | S fuel' =>
          let '(g, o1, st) := start_quiz_wake g th in
          let '(g, o2, r) := sleep_through fuel' g st in
          (g, o1 ++ o2, r)
      end
  end.

(** One step.  A command arrives, a timer fires and a sleep ends only
    while the connection is up: a [privmsg] on a closed connection raises
    part of the way through, which is not modelled; nor is what follows a
    handler that raises in the event loop ([None] in both cases).  The
    timers all wait 45 seconds, so the oldest fires first; [Sleep_ends i]
    wakes the [i]-th sleeping call. *)
Definition step (w : World) (b : QuizzerBot) (i : input)
    : option (QuizzerBot * list event) :=
  match i with
  | Disconnected connect_ok => Some (on_disconnect b connect_ok, [])
  | _ =>
      if negb (connected b) then None
      else
        match i with
        | Pub_start nick category =>
            let '(g, out, timer) :=
              handle_start_command w (quiz_game b) category nick in
            Some (with_flight (timers b ++ option_list timer) (threads b)
                    (with_game g b), out)
        | Priv_join nick =>
            let (g, out) := handle_join_command (quiz_game b) nick in
            Some (with_game g b, out)
        | Priv_answer nick answer now =>
            match process_answer (quiz_game b) nick answer now with
            | (g, out, Returned) => Some (with_game g b, out)
            | (_, _, Raised _) => None
            end
        | Admin_stop_game nick =>
            let (g, out) := Admin.stop_game (quiz_game b) nick in
            Some (with_game g b, out)
        | Joined joined_nick =>
            let (g, out) := on_join (quiz_game b) (nickname b) joined_nick in
            Some (with_game g b, out)
        | Timer_fires rng =>
            match timers b with
            | [] => None
            | category :: ts =>
                let '(g, out, st) :=
                  start_quiz_begin w rng (quiz_game b) category in
                let ths := match st with
                           | Sleeping th => threads b ++ [th]
                           | Ended _ => threads b
                           end in
                Some (with_flight ts ths (with_game g b), out)
            end
        | Sleep_ends i =>
            match threads b !! i with
            | None => None
            | Some th =>
                let '(g, out, st) := start_quiz_wake (quiz_game b) th in
                let ths := match st with
                           | Sleeping th' => <[i := th']> (threads b)
                           | Ended _ => delete i (threads b)
                           end in
                Some (with_flight (timers b) ths (with_game g b), out)
            end
        | Disconnected _ => None
        end
  end.

(** A run: the inputs in turn, the outputs appended. *)
Fixpoint run (w : World) (b : QuizzerBot) (inputs : list input)
    : option (QuizzerBot * list event) :=
  match inputs with
  | [] => Some (b, [])
  | i :: rest =>
      match step w b i with
      | None => None
      | Some (b, out) =>
          match run w b rest with
          | None => None
          | Some (b, out') => Some (b, out ++ out')
          end
      end
  end.

End Bot.

(** ** The round, as the flags of the game encode it *)

Module Round.
Import Quiz.

Inductive state := Idle | Recruiting | Active | Concluded.

(** [handle_join_command] tells the states apart by [game_active] and
    [joining_allowed]; between a disconnection and the next join of the
    channel the game is flagged [game_interrupted]. *)
Definition round_state (g : QuizGame) : state :=
  if game_active g then Active
  else if game_interrupted g then Concluded
  else if joining_allowed g then Recruiting
  else Idle.

(** The question that a message puts, if it puts one. *)
Definition question_of (m : msg) : option string :=
  match m with
  | QuestionLine _ question => Some question
  | _ => None
  end.

(** The questions put to the channel, in order. *)
Definition asked (out : list event) : list string :=
  omap (λ e, match e with
             | Privmsg _ m => question_of m
             | _ => None
             end) out.

(** The score records written, in order. *)
Definition stored (out : list event) : list (string * Z) :=
  omap (λ e, match e with
             | StoreScore user score => Some (user, score)
             | _ => None
             end) out.

(** The partial score that a message shows, if it shows one. *)
Definition partial_score_of (m : msg) : option (string * Z) :=
  match m with
  | PartialScoreLine user score => Some (user, score)
  | _ => None
  end.

(** The partial scores shown after an interruption, in order. *)
Definition surfaced (out : list event) : list (string * Z) :=
  omap (λ e, match e with
             | Privmsg _ m => partial_score_of m
             | _ => None
             end) out.

(** The stop of the game was announced on the channel. *)
Definition stop_announced (g : QuizGame) (out : list event) : Prop :=
  Exists (λ e, match e with
               | Privmsg target StoppedByAdmin => target = channel g
               | _ => False
               end) out.

(** The conditions under which [process_answer] goes on to compare the
    answer with the correct label of the question [data], [score] being
    the score of the user so far. *)
Record accepted (g : QuizGame) (user : string) (now : Z) (data : qdata)
    (score : Z) : Prop := {
  acc_rate : rate_limited g user now = false;
  acc_active : game_active g = true;
  acc_participant : Dict.mem user (participants g) = true;
  acc_question : current_data g = Some data;
  acc_first : answered_participants g !! user = None;
  acc_score : Dict.get user (scores g) = Some score
}.

(** Equality of two labels up to letter case. *)
Definition same_label (a b : string) : Prop := Py.upper a = Py.upper b.

#[global] Instance same_label_dec a b : Decision (same_label a b) :=
  decide (Py.upper a = Py.upper b).

(** Every loaded question lists its correct label among its answers. *)
Definition well_formed (qs : Dict.t qdata) : Prop :=
  Forall (λ q, is_Some (Dict.get (correct q.2) (answers q.2))) qs.

End Round.

(** ** A small installation: one category with three questions *)

Module Demo.
Import Quiz.

Definition entry (text correct : string) : qrecord :=
  {| q_question := text; q_category := "Science";
     q_answers := [("A", "yes"); ("B", "no")]; q_correct := correct |}.

Definition science : list qrecord :=
  [entry "q1" "A"; entry "q2" "B"; entry "q3" "A"].

Definition world : World :=
  {| listdir := ["Science_questions.json"];
     read_json := λ f,
       if String.eqb f "quiz_data/Science_questions.json"
       then Some science else None;
     html_unescape := id;
     find_category_match := λ c,
       if String.eqb (Py.lower c) "science"
       then (Some "Science", None, false) else (None, None, false);
     get_category_hierarchy := [("Science", None)] |}.

(** [question_count = 5], [answer_time_limit = 20], [RATE_LIMIT = 2] *)
Definition game : QuizGame := Quiz.init "#quiz" 5 20 2.

Definition bot : Bot.QuizzerBot := Bot.init game "Quizzer".

(** The game with one question per round. *)
Definition short_bot : Bot.QuizzerBot :=
  Bot.init (Quiz.init "#quiz" 1 20 2) "Quizzer".

(** [re.match] as [Py.re_match] models it ([false] outside the model). *)
Definition re_match (regex s : string) : bool :=
  default false (Py.re_match regex s).

(** The same installation with the answer labels in lower case. *)
Definition lower_case_world : World :=
  {| listdir := ["Science_questions.json"];
     read_json := λ f,
       if String.eqb f "quiz_data/Science_questions.json"
       then Some [{| q_question := "q1"; q_category := "Science";
                     q_answers := [("a", "yes"); ("b", "no")];
                     q_correct := "b" |}]
       else None;
     html_unescape := id;
     find_category_match := find_category_match world;
     get_category_hierarchy := get_category_hierarchy world |}.

(** The bot a run leaves behind (the bot itself if the run is not
    defined). *)
Definition bot_after (w : World) (b : Bot.QuizzerBot)
    (inputs : list Bot.input) : Bot.QuizzerBot :=
  match Bot.run w b inputs with
  | Some (b', _) => b'
  | None => b
  end.

(** The game a run leaves behind ([game] if the run is not defined). *)
Definition game_after (w : World) (b : Bot.QuizzerBot)
    (inputs : list Bot.input) : QuizGame :=
  match Bot.run w b inputs with
  | Some (b', _) => Bot.quiz_game b'
  | None => game
  end.

(** bob starts a round on science and alice joins it. *)
Definition recruiting : list Bot.input :=
  [Bot.Pub_start "bob" "science"; Bot.Priv_join "alice"].

(** The recruitment timer then fires and the first question is asked;
    every draw of the random generator is 0. *)
Definition first_question : list Bot.input :=
  recruiting ++ [Bot.Timer_fires []].

(** A back end without bcrypt whose digest is the identity. *)
Definition crypto : Verifier.Crypto :=
  {| Verifier.HAS_BCRYPT := false;
     Verifier.bcrypt_checkpw := λ _ _, None;
     Verifier.sha256_hexdigest := id |}.

(** Two admins: [Alice], whose stored digest is that of [secret], and
    [Bob], who has none; three attempts allowed, five minutes of lockout,
    sessions of one hour. *)
Definition verifier : Verifier.AdminVerifier :=
  Verifier.init ["Alice"; "Bob"] "password" 3600 3 300
    {["alice" := "secret"]} ∅.

End Demo.

(** ** More of Python's strings *)

Module Text.

(** [sep.join(l)] *)
Fixpoint join (sep : string) (l : list string) : string :=
  match l with
  | [] => ""
  | x :: rest =>
      match rest with
      | [] => x
      | _ => x +:+ sep +:+ join sep rest
      end
  end.

End Text.

(** ** More of src/admin_verifier.py: setting passwords *)

Module Passwords.
Import Verifier.

Definition set_password_hashes (h : gmap string string) (v : AdminVerifier) :=
  {| admin_nicks := admin_nicks v; verification_method := verification_method v;
     sessions := sessions v; session_timeout := session_timeout v;
     failed_attempts := failed_attempts v; max_attempts := max_attempts v;
     lockout_duration := lockout_duration v;
     password_hashes := h; hostmasks := hostmasks v |}.

(** [_hash_password]; [bcrypt_hashpw p] is the value of
    [bcrypt.hashpw(p.encode('utf-8'), bcrypt.gensalt()).decode('utf-8')]
    at this call. *)
Definition _hash_password (cr : Crypto) (bcrypt_hashpw : string -> string)
    (plaintext : string) : string :=
  if HAS_BCRYPT cr then bcrypt_hashpw plaintext
  else sha256_hexdigest cr plaintext.

Definition msg_password_updated (nick : string) : string :=
  "Password updated for " +:+ nick +:+ ".".
Definition msg_error_saving (e : string) : string :=
  "Error saving password: " +:+ e.

(** [set_password(nick, new_password)]; [save_error] is the text of the
    OSError or IOError that the writing of the hash file raises, if it
    raises one. *)
Definition set_password (cr : Crypto) (bcrypt_hashpw : string -> string)
    (v : AdminVerifier) (nick new_password : string)
    (save_error : option string) : AdminVerifier * (bool * string) :=
  if negb (is_admin v nick) then (v, (false, msg_not_admin))
  else
    let nick_lower := Py.lower nick in
    let hashed := _hash_password cr bcrypt_hashpw new_password in
    let v := set_password_hashes (<[nick_lower := hashed]> (password_hashes v)) v in
    match save_error with
    | None => (v, (true, msg_password_updated nick))
    | Some e => (v, (false, msg_error_saving e))
    end.

End Passwords.

(** ** More of src/admin.py: the admin list *)

Module AdminCommands.
Import Verifier.

(** The attributes of [AdminCommands] beside the game: its own set of
    admin nicks and the verifier, if one is configured. *)
Record AdminCommands := {
  admin_nicks : gset string;
  admin_verifier : option AdminVerifier
}.

(** [AdminCommands(quiz_game, admin_nicks, nickserv_name, admin_verifier)] *)
Definition init (nicks : list string) (verifier : option AdminVerifier)
    : AdminCommands :=
  {| admin_nicks := list_to_set nicks; admin_verifier := verifier |}.

Definition is_admin (ac : AdminCommands) (user : string) : bool :=
  bool_decide (user ∈ admin_nicks ac).

(** [connection.notice(target, text)] *)
Inductive notice := Notice (target text : string).

Definition quoted (s : string) : string := "'" +:+ s +:+ "'".

(** [set_rate_limit]; [int_of] is Python's [int], [None] where it raises
    ValueError. *)
Definition set_rate_limit (int_of : string -> option Z) (ac : AdminCommands)
    (g : Quiz.QuizGame) (nick new_limit : string)
    : Quiz.QuizGame * list notice :=
  if is_admin ac nick then
    match int_of new_limit with
    | Some n =>
        (Quiz.set_rate_limit n g,
         [Notice nick ("Rate limit updated to " +:+ pretty n +:+ " seconds.")])
    | None => (g, [Notice nick "Invalid rate limit value."])
    end
  else (g, []).

(** [add_admin]; [config_error] is the text of the exception that the
    reading or the writing of config.yaml raises, if it raises one;
    [bcrypt_hashpw] and [save_error] are those of
    [AdminVerifier.set_password]. *)
Definition add_admin (cr : Crypto) (bcrypt_hashpw : string -> string)
    (ac : AdminCommands) (nick new_admin_nick password : string)
    (config_error save_error : option string)
    : AdminCommands * list notice * bool :=
  if negb (is_admin ac nick)
  then (ac, [Notice nick "You are not authorized to add admins."], false)
  else
    match admin_verifier ac with
    | None =>
        (ac, [Notice nick
                "Admin verifier not configured. Cannot add admins via command."],
         false)
    | Some verifier =>
        let new_admin_lower := Py.lower new_admin_nick in
        if bool_decide (new_admin_lower ∈ admin_nicks ac)
        then (ac, [Notice nick ("Admin " +:+ quoted new_admin_nick
                                 +:+ " already exists.")], false)
        else
          match config_error with
          | Some e => (ac, [Notice nick ("Error adding admin: " +:+ e)], false)
          | None =>
              let nicks := {[new_admin_lower]} ∪ admin_nicks ac in
              let '(verifier, (success, msg)) :=
                Passwords.set_password cr bcrypt_hashpw verifier
                  new_admin_nick password save_error in
              let ac := {| admin_nicks := nicks;
                           admin_verifier := Some verifier |} in
              if success
              then (ac,
                    [Notice nick ("✓ Admin " +:+ quoted new_admin_nick
                                  +:+ " added successfully.");
                     Notice nick
                       "Password hashed and saved. New admin can verify now."],
                    true)
              else (ac, [Notice nick ("Error setting password: " +:+ msg)],
                    false)
          end
    end.

(** [remove_admin]; [config_error] as in [add_admin]. *)
Definition remove_admin (ac : AdminCommands)
    (nick admin_to_remove : string) (config_error : option string)
    : AdminCommands * list notice * bool :=
  if negb (is_admin ac nick)
  then (ac, [Notice nick "You are not authorized to remove admins."], false)
  else
    let admin_to_remove_lower := Py.lower admin_to_remove in
    if negb (bool_decide (admin_to_remove_lower ∈ admin_nicks ac))
    then (ac, [Notice nick ("Admin " +:+ quoted admin_to_remove
                             +:+ " not found.")], false)
    else if String.eqb admin_to_remove_lower (Py.lower nick)
    then (ac, [Notice nick "You cannot remove yourself as admin."], false)
    else
      match config_error with
      | Some e => (ac, [Notice nick ("Error removing admin: " +:+ e)], false)
      | None =>
          let nicks := admin_nicks ac ∖ {[admin_to_remove_lower]} in
          let verifier :=
            (λ v, Passwords.set_password_hashes
                    (delete admin_to_remove_lower (password_hashes v)) v)
              <$> admin_verifier ac in
          ({| admin_nicks := nicks; admin_verifier := verifier |},
           [Notice nick ("✓ Admin " +:+ quoted admin_to_remove
                         +:+ " removed successfully.")],
           true)
      end.

End AdminCommands.

(** ** Globs, in the words of the specification *)

Module Glob.

(** A glob whose only wildcard character is [*]: a [*] stands for any
    run of characters, every other character for itself, and the text is
    matched as a whole.  This is the specification's notion, against
    which [Verifier._match_hostmask] is compared; it is not code of the
    program. *)
Fixpoint glob_match (p : string) : string -> bool :=
  match p with
  | EmptyString => λ s, match s with EmptyString => true | _ => false end
  | String c p' =>
      if Ascii.eqb c "*"
      then fix star (s : string) : bool :=
             glob_match p' s
             || match s with
                | EmptyString => false
                | String _ s' => star s'
                end
      else λ s, match s with
                | String d s' => Ascii.eqb c d && glob_match p' s'
                | EmptyString => false
                end
  end.

(** The match of a mask against a pattern as the specification words it:
    the fields are delimited by [!] and [@], pattern and mask must have
    the same number of fields, and each field of the mask must match its
    field of the pattern as a glob (a bare [*] and a literal field being
    globs). *)
Definition claimed_match (hostmask pattern : string) : bool :=
  let ps := Verifier.spec_fields pattern in
  let hs := Verifier.spec_fields hostmask in
  (length ps =? length hs)%nat
  && forallb (λ ph, glob_match ph.1 ph.2) (zip ps hs).

End Glob.

(** ** More observations *)

Module Observe.
Import Quiz.

(** The winners announced with their score, in order. *)
Definition announced_winners (out : list event) : list (list string * Z) :=
  omap (λ e, match e with
             | Privmsg _ (WinnersLine winners max_score) =>
                 Some (winners, max_score)
             | _ => None
             end) out.


(** A round that recruits with no timer pending and no call of
    [start_quiz] under way. *)
Definition stranded (b : Bot.QuizzerBot) : Prop :=
  game_active (Bot.quiz_game b) = false /\
  joining_allowed (Bot.quiz_game b) = true /\
  game_interrupted (Bot.quiz_game b) = false /\
  Bot.timers b = [] /\ Bot.threads b = [].

(** The installation of [Demo.world] after its question file is gone. *)
Definition world_without_files : World :=
  {| listdir := [];
     read_json := λ _, None;
     html_unescape := id;
     find_category_match := find_category_match Demo.world;
     get_category_hierarchy := get_category_hierarchy Demo.world |}.

(** The entry that the loop of [load_questions_from_file] writes for a
    record of the file. *)
Definition entry_of (w : World) (q : qrecord) : string * qdata :=
  (html_unescape w (q_question q),
   {| answers := prod_map id (html_unescape w) <$> q_answers q;
      correct := q_correct q; category := q_category q |}).

(** The round of [Demo.first_question] with a second [!start] during its
    first question.  With 20 seconds to answer and 45 seconds from a
    [!start] to its timer: the first call of [start_quiz] wakes twice
    (questions two and three), then the timer of the second [!start]
    fires. *)
Definition second_start : list Bot.input :=
  Demo.first_question
  ++ [Bot.Pub_start "carol" "science"; Bot.Sleep_ends 0; Bot.Sleep_ends 0;
      Bot.Timer_fires []].

(** An admin whose hostmask pattern has a glob for the user. *)
Definition trusting_verifier : Verifier.AdminVerifier :=
  Verifier.init ["Alice"] "hostmask" 3600 3 300 ∅
    {["alice" := ["alice!*@trusted.example.com"]]}.

(** [Demo.world] with a second category, History, of one question. *)
Definition two_categories : World :=
  {| listdir := ["Science_questions.json"; "History_questions.json"];
     read_json := λ f,
       if String.eqb f "quiz_data/History_questions.json"
       then Some [{| q_question := "h1"; q_category := "History";
                     q_answers := [("A", "yes"); ("B", "no")];
                     q_correct := "A" |}]
       else read_json Demo.world f;
     html_unescape := id;
     find_category_match := λ c,
       if String.eqb (Py.lower c) "history"
       then (Some "History", None, false)
       else find_category_match Demo.world c;
     get_category_hierarchy := [("Science", None); ("History", None)] |}.

End Observe.

(** * Properties *)

(** ** Dictionaries *)

Section DictFacts.
Context {V : Type}.
Implicit Types (d : list (string * V)) (k : string) (v : V).

Lemma eqb_false_ne (a b : string) : String.eqb a b = false <-> a <> b.
Proof. apply String.eqb_neq. Qed.

Lemma dict_get_set_eq d k v : Dict.get k (Dict.set k v d) = Some v.
Proof.
  induction d as [|[k' v'] d IH]; simpl.
  - by rewrite String.eqb_refl.
  - destruct (String.eqb k' k) eqn:E; simpl; rewrite E; done.
Qed.

Lemma dict_get_set_ne d k k' v :
  k <> k' -> Dict.get k' (Dict.set k v d) = Dict.get k' d.
Proof.
  intros Hne. induction d as [|[k0 v0] d IH]; simpl.
  - apply String.eqb_neq in Hne. by rewrite Hne.
  - destruct (String.eqb k0 k) eqn:E; simpl.
    + apply String.eqb_eq in E. subst k0.
      apply String.eqb_neq in Hne. by rewrite Hne.
    + by rewrite IH.
Qed.

Lemma dict_get_None d k : Dict.get k d = None <-> k ∉ Dict.keys d.
Proof.
  unfold Dict.keys. induction d as [|[k0 v0] d IH]; simpl.
  - split; [intros _; apply not_elem_of_nil | done].
  - rewrite not_elem_of_cons. destruct (String.eqb k0 k) eqn:E.
    + apply String.eqb_eq in E. subst. split; [done | intros [? _]; done].
    + apply String.eqb_neq in E. rewrite IH. split; [done | by intros [_ ?]].
Qed.

Lemma dict_set_fresh d k v :
  Dict.get k d = None -> Dict.set k v d = d ++ [(k, v)].
Proof.
  induction d as [|[k0 v0] d IH]; simpl; [done |].
  destruct (String.eqb k0 k); [done |]. intros H. by rewrite IH.
Qed.

Lemma dict_keys_set d k v :
  Dict.keys (Dict.set k v d) =
  if Dict.mem k d then Dict.keys d else Dict.keys d ++ [k].
Proof.
  unfold Dict.mem, Dict.keys. induction d as [|[k0 v0] d IH]; [done |].
  cbn [Dict.set Dict.get]. destruct (String.eqb k0 k) eqn:E; [done |].
  rewrite !fmap_cons, IH. by destruct (Dict.get k d).
Qed.

Lemma dict_set_NoDup d k v :
  NoDup (Dict.keys d) -> NoDup (Dict.keys (Dict.set k v d)).
Proof.
  intros Hd. rewrite dict_keys_set. unfold Dict.mem.
  destruct (Dict.get k d) eqn:E; [done |].
  apply dict_get_None in E. apply NoDup_app. split_and!; [done | | apply NoDup_singleton].
  intros x Hx Hx'. apply list_elem_of_singleton in Hx'. by subst.
Qed.

Lemma dict_get_elem d k v :
  NoDup (Dict.keys d) -> (k, v) ∈ d -> Dict.get k d = Some v.
Proof.
  unfold Dict.keys. induction d as [|[k0 v0] d IH]; simpl.
  - intros _ H. by apply elem_of_nil in H.
  - intros Hnd H. apply NoDup_cons in Hnd as [Hk0 Hnd].
    apply elem_of_cons in H as [H | H].
    + inversion H; subst. by rewrite String.eqb_refl.
    + destruct (String.eqb k0 k) eqn:E.
      * apply String.eqb_eq in E. subst k0. exfalso. apply Hk0.
        apply list_elem_of_fmap. by exists (k, v).
      * by apply IH.
Qed.
End DictFacts.

(** ** Answers: rate limiting and scoring *)

Section Answers.
Import Quiz Round.

(** C10.  A call of [process_answer] that the rate limiter rejects leaves
    the game, and with it the caller's last-action time, as it was; every
    other call records [now] as the caller's last-action time, whatever
    becomes of the answer afterwards (ignored, scored, or an exception). *)
Theorem process_answer_last_command_time g user answer now :
  let '(g', out, _) := process_answer g user answer now in
  if rate_limited g user now
  then g' = g /\ out = [Privmsg (channel g) (PleaseWait user)]
  else last_command_time g' = <[user := now]> (last_command_time g).
Proof.
  unfold process_answer.
  destruct (rate_limited g user now); [done |].
  repeat case_match; by simplify_eq.
Qed.

(** The rejected calls are those made less than [RATE_LIMIT] seconds
    after the caller's recorded last action. *)
Lemma rate_limited_spec g user now :
  rate_limited g user now = true <->
  exists last, last_command_time g !! user = Some last /\
               now - last < RATE_LIMIT g.
Proof.
  unfold rate_limited. destruct (last_command_time g !! user) as [last|].
  - rewrite bool_decide_eq_true. split; [eauto |]. by intros (? & [= <-] & ?).
  - split; [done | by intros (? & ? & _)].
Qed.

(** What an accepted answer does: the upper-cased answer is compared
    with the stored correct label as it is. *)
Lemma process_answer_accepted g user answer now data score :
  accepted g user now data score ->
  let '(g', out, r) := process_answer g user answer now in
  r = Returned /\
  answered_participants g' !! user = Some true /\
  if String.eqb (Py.upper answer) (correct data)
  then scores g' = Dict.set user (score + 1) (scores g) /\
       out = [Privmsg (channel g) (AnsweredCorrect user)]
  else scores g' = scores g /\
       out = [Privmsg (channel g) (AnsweredWrong user)].
Proof.
  intros [Hr Ha Hp Hq Hf Hs]. unfold process_answer. rewrite Hr.
  unfold current_data in *. simpl. rewrite Ha, Hp. simpl.
  destruct (current_question g) as [q|] eqn:Hcq; [| done]. simpl.
  rewrite Hf. rewrite bool_decide_eq_false_2 by (by intros [? ?]).
  rewrite Hq. destruct (String.eqb (Py.upper answer) (correct data)).
  - rewrite Hs. simpl. by rewrite lookup_insert_eq.
  - simpl. by rewrite lookup_insert_eq.
Qed.

(** C7, as amended.  For an accepted answer to a question whose correct
    label is stored in upper case, the score of the participant grows by
    exactly one if the answer equals the correct label up to letter case,
    and stays as it is otherwise; nobody else's score changes. *)
Theorem process_answer_scores g user answer now data score :
  accepted g user now data score ->
  Py.upper (correct data) = correct data ->
  let g' := (process_answer g user answer now).1.1 in
  Dict.get user (scores g') =
    Some (if decide (same_label answer (correct data))
          then score + 1 else score) /\
  forall other, other <> user ->
    Dict.get other (scores g') = Dict.get other (scores g).
Proof.
  intros Hacc Hup. pose proof (process_answer_accepted g user answer now data score Hacc) as H.
  destruct (process_answer g user answer now) as [[g' out] r]. simpl.
  destruct H as (_ & _ & H).
  destruct (decide (same_label answer (correct data))) as [Hs | Hs];
    unfold same_label in Hs; rewrite Hup in Hs.
  - apply String.eqb_eq in Hs. rewrite Hs in H. destruct H as [-> _].
    split; [apply dict_get_set_eq |].
    intros other Hne. by apply dict_get_set_ne.
  - apply String.eqb_neq in Hs. rewrite Hs in H. destruct H as [-> _].
    split; [apply (acc_score _ _ _ _ _ Hacc) | done].
Qed.
End Answers.

(** ** What an answer leaves alone *)

Section AnswerFrame.
Import Quiz Round.

(** [process_answer] changes nothing of the game but the scores, the
    times of the last command and the marks of who has answered. *)
Lemma process_answer_keeps g user answer now :
  let g' := (process_answer g user answer now).1.1 in
  g' = set_answered_participants (answered_participants g')
         (set_last_command_time (last_command_time g')
            (set_scores (scores g') g)).
Proof.
  cbv zeta. unfold process_answer.
  repeat case_match; simplify_eq; simpl in *;
    match goal with x : QuizGame |- _ => by destruct x end.
Qed.

(** The scores stay with the nicks that had one. *)
Lemma process_answer_score_keys g user answer now :
  Dict.keys (scores (process_answer g user answer now).1.1)
  = Dict.keys (scores g).
Proof.
  unfold process_answer.
  repeat case_match; simplify_eq; simpl in *;
    rewrite ?dict_keys_set; unfold Dict.mem;
    by repeat match goal with H : Dict.get _ _ = Some _ |- _ =>
                rewrite H; clear H end.
Qed.

(** Of these, only the entries of the caller change. *)
Lemma process_answer_others g user answer now other :
  other <> user ->
  let g' := (process_answer g user answer now).1.1 in
  Dict.get other (scores g') = Dict.get other (scores g) /\
  last_command_time g' !! other = last_command_time g !! other /\
  answered_participants g' !! other = answered_participants g !! other.
Proof.
  intros Hne. cbv zeta. unfold process_answer.
  repeat case_match; simplify_eq; simpl in *;
    rewrite ?dict_get_set_ne, ?lookup_insert_ne by done; done.
Qed.

End AnswerFrame.

Section AnswersExamples.
Import Quiz Round.

Lemma process_answer_scores_witness :
  let g := Demo.game_after Demo.world Demo.bot
             Demo.first_question in
  let g' := (process_answer g "alice" "a" 100).1.1 in
  Dict.get "alice" (scores g') = Some 1 /\
  forall other, other <> "alice" ->
    Dict.get other (scores g') = Dict.get other (scores g).
Proof.
  apply (process_answer_scores
           (Demo.game_after Demo.world Demo.bot
              Demo.first_question)
           "alice" "a" 100
           {| answers := [("A", "yes"); ("B", "no")]; correct := "A";
              category := "Science" |} 0).
  - constructor; vm_compute; reflexivity.
  - reflexivity.
Defined.

(** C7 fails as stated: with the correct label stored as [b], the answer
    [b] is equal to it up to letter case (indeed equal), the answer is
    accepted, and yet it is reported wrong and scores nothing. *)
Lemma lower_case_label_scores_nothing :
  let g := Demo.game_after Demo.lower_case_world Demo.bot
             Demo.first_question in
  exists data,
    accepted g "alice" 100 data 0 /\
    same_label "b" (correct data) /\
    let '(g', out, _) := process_answer g "alice" "b" 100 in
    Dict.get "alice" (scores g') = Some 0 /\
    out = [Privmsg "#quiz" (AnsweredWrong "alice")].
Proof.
  exists {| answers := [("a", "yes"); ("b", "no")]; correct := "b";
            category := "Science" |}.
  split; [constructor; vm_compute; reflexivity |].
  vm_compute. done.
Qed.
End AnswersExamples.

(** ** Stopping the game *)

Section Stop.
Import Quiz Round.

(** C2, as amended.  [stop_game] succeeds exactly when the round is
    Active.  When it succeeds it clears [game_active] and announces the
    stop on the channel; when it does not, it tells the caller and
    leaves the game as it was.  Either way it stores no score. *)
Theorem stop_game_only_when_active g nick :
  let '(g', out) := Admin.stop_game g nick in
  (stop_announced g out <-> round_state g = Active) /\
  stored out = [] /\
  if game_active g
  then game_active g' = false /\ out = [Privmsg (channel g) StoppedByAdmin]
  else g' = g /\ out = [Privmsg nick NoActiveGame].
Proof.
  unfold Admin.stop_game, round_state, stop_announced.
  destruct (game_active g) eqn:Ha; simpl.
  - split_and!; try done. split; [done |]. intros _. by left.
  - split_and!; try done. split.
    + intros H. apply Exists_cons in H as [[] | H]. by apply Exists_nil in H.
    + repeat case_match; done.
Qed.

(** C2 fails as stated: while alice is being recruited the stop is
    refused and changes nothing; and a stop during the first question
    leaves the participants, the scores and the open question in place,
    with joining allowed again, which is the state of a recruiting
    round and not Idle. *)
Lemma stop_game_refused_while_recruiting :
  (let g := Demo.game_after Demo.world Demo.bot
              Demo.recruiting in
   round_state g = Recruiting /\
   Admin.stop_game g "op" = (g, [Privmsg "op" NoActiveGame])) /\
  (let g := Demo.game_after Demo.world Demo.bot
              Demo.first_question in
   let g' := (Admin.stop_game g "op").1 in
   round_state g = Active /\
   round_state g' = Recruiting /\
   participants g' = [("alice", 0)] /\
   scores g' = [("alice", 0)] /\
   current_question g' = Some "q1").
Proof. vm_compute. done. Qed.
End Stop.

(** ** Password verification *)

Section Passwords.
Import Verifier.

Lemma msg_distinct :
  msg_not_admin <> msg_incorrect /\ msg_no_password <> msg_incorrect /\
  msg_not_admin <> msg_no_password.
Proof. done. Qed.

(** C3, as amended.  A failed password verification names its cause: a
    locked-out nick is told the remaining time, a nick that is not an
    admin that it is not one, an admin without a stored hash that no
    password is set, and an admin with a stored hash that the password
    is incorrect; the last three messages are pairwise different. *)
Theorem verify_password_failure_messages cr v nick password now token :
  let r := (verify_password cr v nick password now token).2 in
  (forall remaining, locked_out v nick now = Some remaining ->
     r = (false, msg_locked_out remaining)) /\
  (locked_out v nick now = None -> is_admin v nick = false ->
     r = (false, msg_not_admin)) /\
  (locked_out v nick now = None -> is_admin v nick = true ->
     password_hashes v !! Py.lower nick = None ->
     r = (false, msg_no_password)) /\
  (forall hashed,
     locked_out v nick now = None -> is_admin v nick = true ->
     password_hashes v !! Py.lower nick = Some hashed ->
     _verify_password cr password hashed = false ->
     r = (false, msg_incorrect)) /\
  msg_not_admin <> msg_incorrect /\ msg_no_password <> msg_incorrect /\
  msg_not_admin <> msg_no_password.
Proof.
  unfold locked_out, verify_password, is_admin. simpl.
  destruct (check_lockout v (Py.lower nick) now) as [rem | fa]; simpl.
  - split_and!; try done. by intros ? [= ->].
  - split_and!; try done.
    + by intros _ ->.
    + by intros _ -> ->.
    + by intros hashed _ -> -> ->.
Qed.

Lemma verify_password_failure_messages_witness :
  (verify_password Demo.crypto Demo.verifier "Mallory" "guess" 1000 "t").2
    = (false, msg_not_admin) /\
  (verify_password Demo.crypto Demo.verifier "Bob" "guess" 1000 "t").2
    = (false, msg_no_password) /\
  (verify_password Demo.crypto Demo.verifier "Alice" "guess" 1000 "t").2
    = (false, msg_incorrect).
Proof.
  split_and!.
  - destruct (verify_password_failure_messages Demo.crypto
                Demo.verifier "Mallory" "guess" 1000 "t")
      as (_ & H & _).
    apply H; vm_compute; reflexivity.
  - destruct (verify_password_failure_messages Demo.crypto
                Demo.verifier "Bob" "guess" 1000 "t")
      as (_ & _ & H & _).
    apply H; vm_compute; reflexivity.
  - destruct (verify_password_failure_messages Demo.crypto
                Demo.verifier "Alice" "guess" 1000 "t")
      as (_ & _ & _ & H & _).
    apply (H "secret"); vm_compute; reflexivity.
Defined.

(** C3 fails as stated: the same wrong guess is answered differently for
    a nick without an account, for an admin without a stored hash and
    for an admin with one. *)
Lemma failure_message_tells_accounts_apart :
  let answer nick :=
    (verify_password Demo.crypto Demo.verifier nick "guess" 1000 "t").2 in
  is_admin Demo.verifier "Mallory" = false /\
  (answer "Mallory").1 = false /\ (answer "Bob").1 = false /\
  (answer "Alice").1 = false /\
  (answer "Mallory").2 <> (answer "Alice").2 /\
  (answer "Bob").2 <> (answer "Alice").2.
Proof. vm_compute. split_and!; done. Qed.

Lemma never_locked_delete v n :
  never_locked v ->
  never_locked (set_failed_attempts (delete n (failed_attempts v)) v).
Proof.
  intros H n' c u. simpl. intros Hl.
  apply lookup_delete_Some in Hl as [_ Hl]. by apply (H n').
Qed.

(** A record without a lockout time is deleted by the next call for its
    nick, so that [record_failure] finds none and starts again at one:
    no call sets a lockout time, and none finds the nick locked out. *)
Lemma verify_password_never_locks cr v nick password now token :
  never_locked v -> 0 <= now ->
  locked_out v nick now = None /\
  never_locked (verify_password cr v nick password now token).1.
Proof.
  intros Hv Hnow. unfold locked_out, verify_password, check_lockout.
  assert (Hdel := never_locked_delete v (Py.lower nick) Hv).
  destruct (failed_attempts v !! Py.lower nick) as [[c u]|] eqn:Hfa.
  - destruct (Hv _ _ _ Hfa) as [-> ->].
    rewrite bool_decide_eq_false_2 by lia. split; [done |].
    repeat case_match; simpl; try done.
    + rewrite delete_delete_eq. done.
    + unfold record_failure. simpl. rewrite lookup_delete_eq.
      intros n c u. simpl. intros Hl.
      apply lookup_insert_Some in Hl as [[_ [= <- <-]] | [_ Hl]]; [done |].
      by apply (Hdel n).
  - split; [done |].
    assert (failed_attempts v = delete (Py.lower nick) (failed_attempts v))
      as Heq by (by rewrite delete_id).
    repeat case_match; simpl; try done.
    + unfold record_failure. simpl. rewrite Hfa.
      intros n c u. simpl. intros Hl.
      apply lookup_insert_Some in Hl as [[_ [= <- <-]] | [_ Hl]]; [done |].
      by apply (Hv n).
Qed.

Lemma msg_locked_out_distinct remaining timeout :
  msg_locked_out remaining <> msg_not_admin /\
  msg_locked_out remaining <> msg_no_password /\
  msg_locked_out remaining <> msg_incorrect /\
  msg_locked_out remaining <> msg_success timeout.
Proof. done. Qed.

Lemma verify_password_not_locked cr v nick password now token :
  locked_out v nick now = None ->
  (verify_password cr v nick password now token).2.2 ∈
    [msg_not_admin; msg_no_password; msg_incorrect;
     msg_success (session_timeout v)].
Proof.
  unfold locked_out, verify_password.
  destruct (check_lockout v (Py.lower nick) now); [done |]. intros _.
  repeat case_match; simpl; set_solver.
Qed.

(** From a table without lockouts, no series of calls is ever answered
    with the lockout message, however many passwords were wrong. *)
Lemma lockout_never_engages cr calls v :
  never_locked v ->
  Forall (fun c => 0 <= c.1.2) calls ->
  Forall (fun r => forall remaining, r.2 <> msg_locked_out remaining)
    (verify_passwords cr v calls).2.
Proof.
  revert v. induction calls as [| [[[nick password] now] token] calls IH];
    intros v Hv Hnow; simpl; [constructor |].
  apply Forall_cons in Hnow as [Hnow Hrest]. simpl in Hnow.
  destruct (verify_password_never_locks cr v nick password now token Hv Hnow)
    as [Hl Hv'].
  pose proof (verify_password_not_locked cr v nick password now token Hl)
    as Hin.
  destruct (verify_password cr v nick password now token) as [v1 r].
  specialize (IH v1 Hv' Hrest).
  destruct (verify_passwords cr v1 calls) as [v2 rs]. simpl in *.
  constructor; [| done]. intros remaining E. rewrite E in Hin.
  pose proof (msg_locked_out_distinct remaining (session_timeout v))
    as (? & ? & ? & ?).
  repeat (apply elem_of_cons in Hin as [Hin | Hin]; [done |]).
  by apply elem_of_nil in Hin.
Qed.

(** A successful verification leaves no failure record for the nick. *)
Lemma verify_password_success_clears cr v nick password now token :
  (verify_password cr v nick password now token).2.1 = true ->
  failed_attempts (verify_password cr v nick password now token).1
    !! Py.lower nick = None.
Proof.
  unfold verify_password.
  repeat case_match; simpl; try done. intros _. apply lookup_delete_eq.
Qed.

(** C4, on the code.  Three attempts are allowed and the lockout lasts
    five minutes.  Three wrong passwords for Alice, one second apart,
    are each answered [Incorrect password.]; the fourth call, with the
    right password, is not rejected: it verifies her and opens a
    session.  After the third failure her record still counts one
    failure and carries no lockout time. *)
Theorem fourth_attempt_is_not_locked_out :
  let failures :=
    [("Alice", "wrong", 1000, "t1"); ("Alice", "wrong", 1001, "t2");
     ("Alice", "wrong", 1002, "t3")] in
  let (v3, answers) :=
    verify_passwords Demo.crypto Demo.verifier failures in
  answers = [(false, msg_incorrect); (false, msg_incorrect);
             (false, msg_incorrect)] /\
  failed_attempts v3 !! "alice" = Some (1, 0) /\
  locked_out v3 "Alice" 1003 = None /\
  (verify_password Demo.crypto v3 "Alice" "secret" 1003 "t4").2
    = (true, msg_success 3600).
Proof. vm_compute. done. Qed.
End Passwords.

(** ** Hostmasks *)

Section Hostmasks.
Import Verifier.

Lemma match_field_spec re p h :
  match_field re p h = true <-> field_matches re p h.
Proof.
  unfold match_field, field_matches.
  destruct (String.eqb p "*") eqn:Estar.
  - apply String.eqb_eq in Estar. split; [by left | done].
  - apply String.eqb_neq in Estar.
    destruct (Py.contains "*" p) eqn:Ec.
    + split; [intros H; right; by left |].
      intros [? | [(_ & _ & H) | [? _]]]; done.
    + rewrite String.eqb_eq. split; [intros H; right; by right |].
      intros [? | [(_ & ? & _) | [_ H]]]; done.
Qed.

Lemma match_fields_spec re ps hs :
  length ps = length hs ->
  match_fields re ps hs = true <-> Forall2 (field_matches re) ps hs.
Proof.
  revert hs. induction ps as [| p ps IH]; intros [| h hs] Hlen;
    simpl in *; try done.
  injection Hlen as Hlen. specialize (IH hs Hlen).
  destruct (match_field re p h) eqn:E.
  - rewrite IH. apply match_field_spec in E.
    split; [by constructor |]. by intros [_ ?]%Forall2_cons.
  - split; [done |]. intros [H _]%Forall2_cons.
    apply match_field_spec in H. congruence.
Qed.

(** How [_match_hostmask] decides.  A hostmask passes a pattern exactly
    when both have the same number of fields delimited by [!] (the nick,
    and the user and host together) and each field passes in turn:
    against a bare
    [*] anything passes; against a field with a [*] in it, what
    [re.match] accepts for that field with every [*] replaced by [.*];
    against any other field, only the same text. *)
Theorem match_hostmask_fields re hostmask pattern :
  _match_hostmask re hostmask pattern = true <->
  Forall2 (field_matches re)
    (Py.split "!" pattern) (Py.split "!" hostmask).
Proof.
  unfold _match_hostmask.
  destruct (length (Py.split "!" pattern) =? length (Py.split "!" hostmask))%nat
    eqn:E; simpl.
  - apply Nat.eqb_eq in E. by apply match_fields_spec.
  - apply Nat.eqb_neq in E. split; [done |].
    intros H. by apply Forall2_length in H.
Qed.

(** The fields are those delimited by [!] alone: counted as the
    specification counts them, the pattern [*!*] has two fields and the
    mask [nick!user@host] three, and the mask passes the pattern all
    the same. *)
Lemma hostmask_passes_despite_field_count :
  spec_fields "*!*" = ["*"; "*"] /\
  spec_fields "nick!user@host" = ["nick"; "user"; "host"] /\
  forall re, _match_hostmask re "nick!user@host" "*!*" = true.
Proof. done. Qed.

(** A field with a [*] in it is read as a regular expression and need
    only match a beginning of the field of the mask: the pattern
    [*!*@host.com] lets a host pass that has another character for the
    dot and goes on after [com]. *)
Lemma glob_field_is_a_regular_expression :
  Py.replace "*" ".*" "*@host.com" = ".*@host.com" /\
  Py.re_match ".*@host.com" "eve@hostXcom.example.org" = Some true /\
  _match_hostmask Demo.re_match
    "eve!eve@hostXcom.example.org" "*!*@host.com" = true.
Proof. vm_compute. done. Qed.
(** The specification's glob on a field without [*]: only the same
    text matches. *)
Lemma glob_match_literal p : forall h,
  Py.contains "*" p = false -> Glob.glob_match p h = String.eqb p h.
Proof.
  induction p as [| c p IH]; intros h Hc; simpl in *.
  - by destruct h.
  - destruct (Ascii.eqb c "*") eqn:E; [done |].
    destruct h as [| d h]; [done |]. simpl. rewrite (IH h Hc).
    by destruct (Ascii.eqb c d).
Qed.

(** The specification's glob on a bare [*]: anything matches. *)
Lemma glob_match_star h : Glob.glob_match "*" h = true.
Proof. induction h as [| d h IH]; [done |]. simpl in *. by rewrite IH. Qed.

(** C8.  The code lets a mask pass that the claim refuses.  The admin
    alice is to be recognised from [alice!*@trusted.example.com]; the mask
    [alice!al@trusted.example.com.evil.org] has as many fields as the
    pattern, counted by [!] and [@] as the specification counts them or
    by [!] alone as the code does, and its host is not the host of the
    pattern: as a glob whose only wildcard is [*] the pattern does not
    match it, in the three fields of the specification or in the two of
    the code.  But [_match_hostmask] hands the field
    [*@trusted.example.com] to [re.match] as the regular expression
    [.*@trusted.example.com], which need only match a beginning of the
    field: the mask passes, and [verify_hostmask] and [verify] accept
    it for alice. *)
Theorem glob_field_passes_foreign_host :
  let pattern := "alice!*@trusted.example.com" in
  let hostmask := "alice!al@trusted.example.com.evil.org" in
  spec_fields pattern = ["alice"; "*"; "trusted.example.com"] /\
  spec_fields hostmask = ["alice"; "al"; "trusted.example.com.evil.org"] /\
  Glob.claimed_match hostmask pattern = false /\
  Py.split "!" pattern = ["alice"; "*@trusted.example.com"] /\
  Py.split "!" hostmask = ["alice"; "al@trusted.example.com.evil.org"] /\
  Glob.glob_match "*@trusted.example.com" "al@trusted.example.com.evil.org"
    = false /\
  Py.replace "*" ".*" "*@trusted.example.com" = ".*@trusted.example.com" /\
  Py.re_match ".*@trusted.example.com" "al@trusted.example.com.evil.org"
    = Some true /\
  _match_hostmask Demo.re_match hostmask pattern = true /\
  verify_hostmask Demo.re_match Observe.trusting_verifier "alice" hostmask
    = true /\
  (verify Demo.crypto Demo.re_match Observe.trusting_verifier "alice" None
     None (Some hostmask) 1000 "t").2 = true.
Proof. vm_compute. by split_and!. Qed.
End Hostmasks.

(** ** Identities and letter case *)

Section Identities.
Import Verifier.

Lemma dom_only_at {A} (m m' : gmap string A) (k : string) :
  (forall j, j <> k -> m' !! j = m !! j) -> dom m' ⊆ dom m ∪ {[k]}.
Proof.
  intros H j Hj. apply elem_of_union.
  destruct (decide (j = k)) as [-> | Hne].
  - right. by apply elem_of_singleton.
  - left. apply elem_of_dom. rewrite <- (H j Hne). by apply elem_of_dom.
Qed.

(** While a round is recruiting, a join is refused only to a nick
    that is a participant letter for letter; any other nick is added as
    it was received. *)
Lemma join_takes_nick_as_received g user :
  Quiz.game_active g = false -> Quiz.joining_allowed g = true ->
  Dict.keys (Quiz.participants (Quiz.handle_join_command g user).1) =
  if bool_decide (user ∈ Dict.keys (Quiz.participants g))
  then Dict.keys (Quiz.participants g)
  else Dict.keys (Quiz.participants g) ++ [user].
Proof.
  intros Ha Hj. unfold Quiz.handle_join_command. rewrite Ha, Hj. simpl.
  unfold Dict.mem.
  destruct (Dict.get user (Quiz.participants g)) eqn:E; simpl.
  - rewrite bool_decide_eq_true_2; [done |].
    destruct (decide (user ∈ Dict.keys (Quiz.participants g))) as [|Hn];
      [done |].
    apply dict_get_None in Hn. congruence.
  - rewrite bool_decide_eq_false_2 by (by apply dict_get_None).
    rewrite dict_keys_set. unfold Dict.mem. by rewrite E.
Qed.

Lemma verifier_ignores_case cr re v n1 n2 password now token hostmask :
  Py.lower n1 = Py.lower n2 ->
  is_admin v n1 = is_admin v n2 /\
  verify_password cr v n1 password now token
    = verify_password cr v n2 password now token /\
  verify_session v n1 now = verify_session v n2 now /\
  verify_hostmask re v n1 hostmask = verify_hostmask re v n2 hostmask.
Proof.
  intros Hl.
  assert (Ha : is_admin v n1 = is_admin v n2)
    by (unfold is_admin; by rewrite Hl).
  split_and!; try done.
  - unfold verify_password. rewrite Hl.
    destruct (check_lockout v (Py.lower n2) now); [done |].
    unfold is_admin in *. simpl. by rewrite Ha.
  - unfold verify_session. by rewrite Hl.
  - unfold verify_hostmask. by rewrite Ha, Hl.
Qed.

Lemma verify_ignores_case cr re v n1 n2 method password hostmask now token :
  Py.lower n1 = Py.lower n2 ->
  verify cr re v n1 method password hostmask now token
    = verify cr re v n2 method password hostmask now token.
Proof.
  intros Hl. unfold verify.
  destruct (verifier_ignores_case cr re v n1 n2 "" now token "" Hl)
    as (-> & _ & -> & _).
  destruct (verify_session v n2 now) as [v1 live]. cbv beta iota.
  assert (forall pw, verify_password cr v1 n1 pw now token
                     = verify_password cr v1 n2 pw now token) as Hp
    by (intros pw; by apply (verifier_ignores_case cr re v1 n1 n2 pw now token "")).
  assert (forall v' h, verify_hostmask re v' n1 h = verify_hostmask re v' n2 h)
    as Hh
    by (intros v' h; by apply (verifier_ignores_case cr re v' n1 n2 "" now token h)).
  rewrite !Hp. repeat case_match; by rewrite ?Hh.
Qed.

(** C9, as amended.  The verifier of admins looks an identity up by its
    lower-cased form: two nicks that differ only in letter case get the
    same answer and leave the same state in [is_admin],
    [verify_password], [verify_session], [verify_hostmask] and [verify],
    and the records that [verify_password] writes are keyed by the
    lower-cased nick.  A round takes the nick of a joining participant as
    it is received: while it recruits, a nick is added under its own
    spelling unless that very spelling has joined.  And so does an
    answer: [process_answer] reads and writes the records under the nick
    as received and under no other spelling, and for a nick that has not
    joined under that very spelling it scores and marks nothing,
    whatever other spellings of it have joined. *)
Theorem identity_and_letter_case :
  (forall cr re v n1 n2 method password now token hostmask,
     Py.lower n1 = Py.lower n2 ->
     is_admin v n1 = is_admin v n2 /\
     verify_password cr v n1 password now token
       = verify_password cr v n2 password now token /\
     verify_session v n1 now = verify_session v n2 now /\
     verify_hostmask re v n1 hostmask = verify_hostmask re v n2 hostmask /\
     verify cr re v n1 method (Some password) (Some hostmask) now token
       = verify cr re v n2 method (Some password) (Some hostmask) now token /\
     let v' := (verify_password cr v n1 password now token).1 in
     dom (sessions v') ⊆ dom (sessions v) ∪ {[Py.lower n1]} /\
     dom (failed_attempts v') ⊆ dom (failed_attempts v) ∪ {[Py.lower n1]}) /\
  (forall g user,
     Quiz.game_active g = false -> Quiz.joining_allowed g = true ->
     Dict.keys (Quiz.participants (Quiz.handle_join_command g user).1) =
     if bool_decide (user ∈ Dict.keys (Quiz.participants g))
     then Dict.keys (Quiz.participants g)
     else Dict.keys (Quiz.participants g) ++ [user]) /\
  (forall g user answer now,
     let '(g', out, r) := Quiz.process_answer g user answer now in
     (forall other, other <> user ->
        Dict.get other (Quiz.scores g') = Dict.get other (Quiz.scores g) /\
        Quiz.last_command_time g' !! other
          = Quiz.last_command_time g !! other /\
        Quiz.answered_participants g' !! other
          = Quiz.answered_participants g !! other) /\
     (Dict.mem user (Quiz.participants g) = false ->
      r = Quiz.Returned /\
      Quiz.scores g' = Quiz.scores g /\
      Quiz.answered_participants g' = Quiz.answered_participants g /\
      (out = [] \/ out = Quiz.say g [Quiz.PleaseWait user]))).
Proof.
  split; [| split; [apply join_takes_nick_as_received |]].
  2: { intros g user answer now.
       pose proof (fun other => process_answer_others g user answer now other)
         as Ho.
       assert (Dict.mem user (Quiz.participants g) = false ->
               (Quiz.process_answer g user answer now).2 = Quiz.Returned /\
               Quiz.scores (Quiz.process_answer g user answer now).1.1
                 = Quiz.scores g /\
               Quiz.answered_participants
                 (Quiz.process_answer g user answer now).1.1
                 = Quiz.answered_participants g /\
               ((Quiz.process_answer g user answer now).1.2 = [] \/
                (Quiz.process_answer g user answer now).1.2
                  = Quiz.say g [Quiz.PleaseWait user])) as Hn.
       { intros Hm. unfold Quiz.process_answer.
         destruct (Quiz.rate_limited g user now); [by split_and!; try right |].
         simpl. rewrite Hm, orb_true_r. simpl. by split_and!; try left. }
       destruct (Quiz.process_answer g user answer now) as [[g' out] r].
       simpl in *. split; [exact Ho | exact Hn]. }
  intros cr re v n1 n2 method password now token hostmask Hl.
  destruct (verifier_ignores_case cr re v n1 n2 password now token hostmask Hl)
    as (H1 & H2 & H3 & H4).
  split_and!; try done.
  - by apply verify_ignores_case.
  - split; apply dom_only_at; intros j Hj.
    + unfold verify_password.
      repeat case_match; simpl; try done. by rewrite lookup_insert_ne.
    + unfold verify_password, check_lockout, record_failure.
      repeat case_match; simplify_eq; simpl;
        rewrite ?lookup_insert_ne, ?lookup_delete_ne by done; done.
Qed.

Lemma identity_and_letter_case_witness :
  verify_password Demo.crypto Demo.verifier "ALICE" "secret" 1000 "t"
    = verify_password Demo.crypto Demo.verifier "alice" "secret" 1000 "t"
  /\
  Dict.keys (Quiz.participants
               (Quiz.handle_join_command
                  (Demo.game_after Demo.world Demo.bot
                     Demo.recruiting) "Alice").1)
    = ["alice"; "Alice"] /\
  Quiz.scores
    (Quiz.process_answer
       (Demo.game_after Demo.world Demo.bot Demo.first_question)
       "ALICE" "a" 100).1.1
    = Quiz.scores (Demo.game_after Demo.world Demo.bot Demo.first_question).
Proof.
  destruct identity_and_letter_case as (Hadmin & Hjoin & Hanswer).
  split_and!.
  - apply (Hadmin Demo.crypto (fun _ _ => false) Demo.verifier
             "ALICE" "alice" None "secret" 1000 "t" "").
    reflexivity.
  - apply (Hjoin (Demo.game_after Demo.world Demo.bot
                    Demo.recruiting) "Alice"); reflexivity.
  - pose proof (Hanswer
                  (Demo.game_after Demo.world Demo.bot Demo.first_question)
                  "ALICE" "a" 100) as H.
    destruct (Quiz.process_answer
                (Demo.game_after Demo.world Demo.bot Demo.first_question)
                "ALICE" "a" 100) as [[g' out] r].
    destruct H as [_ H]. apply H. reflexivity.
Defined.

(** C9 fails as stated: when Alice joins a round that alice has joined,
    she is entered as a second participant; and an answer of ALICE to
    the first question is ignored, ALICE being no participant. *)
Lemma nicks_differing_in_case_are_two_participants :
  Py.lower "Alice" = Py.lower "alice" /\
  Py.lower "ALICE" = Py.lower "alice" /\
  Quiz.participants
    (Demo.game_after Demo.world Demo.bot
       (Demo.recruiting ++ [Bot.Priv_join "Alice"]))
    = [("alice", 0); ("Alice", 0)] /\
  (Quiz.process_answer
     (Demo.game_after Demo.world Demo.bot Demo.first_question)
     "ALICE" "a" 100).1.2 = [].
Proof. vm_compute. done. Qed.
End Identities.

(** ** Drawing the questions *)

Section Sample.
Context {A : Type}.
Implicit Types (pool : list A) (rng : list nat).

Lemma swap_out pool (j : nat) (x y : A) :
  pool !! j = Some x -> x :: <[j := y]> pool ≡ₚ y :: pool.
Proof.
  revert j. induction pool as [| a pool IH]; intros [| j]; simpl; try done.
  - intros [= ->]. apply perm_swap.
  - intros H. etrans; [apply perm_swap |].
    etrans; [apply perm_skip, (IH j H) |]. apply perm_swap.
Qed.

(** One draw: the element drawn together with the pool that is left
    make up the pool there was. *)
Lemma draw_permutation pool (j : nat) (x y : A) :
  pool !! j = Some x ->
  pool !! (length pool - 1)%nat = Some y ->
  x :: take (length pool - 1) (<[j := y]> pool) ≡ₚ pool.
Proof.
  intros Hj Hlast.
  induction pool as [| z init _] using rev_ind; [done |].
  rewrite length_app in *. simpl in *.
  replace (length init + 1 - 1)%nat with (length init) in * by lia.
  rewrite lookup_app_r in Hlast by lia.
  replace (length init - length init)%nat with 0%nat in Hlast by lia.
  injection Hlast as ->.
  destruct (decide (j < length init)%nat) as [Hlt | Hge].
  - rewrite lookup_app_l in Hj by done.
    rewrite insert_app_l by done.
    rewrite take_app_length' by (by rewrite length_insert).
    rewrite (swap_out init j x y Hj). by rewrite Permutation_cons_append.
  - apply lookup_lt_Some in Hj as Hj'. rewrite length_app in Hj'.
    simpl in Hj'. assert (j = length init) as -> by lia.
    rewrite lookup_app_r in Hj by lia.
    replace (length init - length init)%nat with 0%nat in Hj by lia.
    injection Hj as ->.
    rewrite insert_app_r_alt by lia.
    rewrite take_app_length. by rewrite Permutation_cons_append.
Qed.

(** The sample is drawn without replacement: it is part of the pool,
    each element taken as often at most as the pool holds it. *)
Lemma sample_submseteq rng pool k : Quiz.sample rng pool k ⊆+ pool.
Proof.
  revert rng pool. induction k as [| k IH]; intros rng pool; simpl.
  - apply submseteq_nil_l.
  - destruct (pool !! (hd 0%nat rng `mod` length pool)%nat) as [x |] eqn:Hj;
      [| apply submseteq_nil_l].
    destruct (pool !! (length pool - 1)%nat) as [y |] eqn:Hlast;
      [| apply submseteq_nil_l].
    etrans; [apply submseteq_skip, IH |].
    by rewrite (draw_permutation pool _ x y Hj Hlast).
Qed.

(** A sample of at most the size of the pool has the size asked for. *)
Lemma sample_length rng pool k :
  (k <= length pool)%nat -> length (Quiz.sample rng pool k) = k.
Proof.
  revert rng pool. induction k as [| k IH]; intros rng pool Hk; simpl;
    [done |].
  destruct (lookup_lt_is_Some_2 pool (hd 0%nat rng `mod` length pool)%nat)
    as [x ->]; [apply Nat.mod_upper_bound; lia |].
  destruct (lookup_lt_is_Some_2 pool (length pool - 1)%nat) as [y ->];
    [lia |].
  simpl. rewrite IH; [done |].
  rewrite length_take, length_insert. lia.
Qed.

Lemma submseteq_NoDup (l k : list A) : l ⊆+ k -> NoDup k -> NoDup l.
Proof.
  intros [k' Hk]%submseteq_Permutation Hnd. rewrite Hk in Hnd.
  by apply NoDup_app in Hnd as [? _].
Qed.

Lemma submseteq_incl (l k : list A) : l ⊆+ k -> l ⊆ k.
Proof. intros H x Hx. by apply (elem_of_submseteq l k). Qed.
End Sample.

(** ** Loading the questions *)

Section Loading.
Import Quiz.

Lemma load_entry_shape w g qs q :
  NoDup (Dict.keys qs) ->
  exists qs',
    load_entry w (set_asked_questions ∅ (set_questions qs g)) q
      = set_asked_questions ∅ (set_questions qs' g) /\
    NoDup (Dict.keys qs').
Proof.
  intros Hnd. unfold load_entry. simpl.
  rewrite bool_decide_eq_false_2 by apply not_elem_of_empty.
  eexists. split; [reflexivity |]. by apply dict_set_NoDup.
Qed.

Lemma load_entries_shape w g data : forall qs,
  NoDup (Dict.keys qs) ->
  exists qs',
    foldl (load_entry w) (set_asked_questions ∅ (set_questions qs g)) data
      = set_asked_questions ∅ (set_questions qs' g) /\
    NoDup (Dict.keys qs').
Proof.
  induction data as [| q data IH]; intros qs Hnd; simpl; [by exists qs |].
  destruct (load_entry_shape w g qs q Hnd) as (qs1 & -> & Hnd1).
  by apply IH.
Qed.

Lemma load_questions_from_file_shape w g f qs :
  NoDup (Dict.keys qs) ->
  exists qs',
    (load_questions_from_file w f
       (set_asked_questions ∅ (set_questions qs g))).1
      = set_asked_questions ∅ (set_questions qs' g) /\
    NoDup (Dict.keys qs').
Proof.
  intros Hnd. unfold load_questions_from_file.
  destruct (read_json w f) as [data |]; simpl; [| by exists qs].
  by apply load_entries_shape.
Qed.

Lemma load_files_shape w g fs : forall qs,
  NoDup (Dict.keys qs) ->
  exists qs',
    (load_files w fs (set_asked_questions ∅ (set_questions qs g))).1
      = set_asked_questions ∅ (set_questions qs' g) /\
    NoDup (Dict.keys qs').
Proof.
  induction fs as [| f fs IH]; intros qs Hnd; simpl; [by exists qs |].
  destruct (load_questions_from_file_shape w g f qs Hnd) as (qs1 & H1 & Hnd1).
  destruct (load_questions_from_file w f _) as [g1 [|]]; simpl in *; subst g1.
  - by apply IH.
  - by exists qs1.
Qed.

(** [load_questions] replaces the questions by a dictionary (no text
    twice), empties the set of asked questions and touches nothing
    else. *)
Lemma load_questions_shape w category g :
  exists qs,
    (load_questions w category g).1
      = set_asked_questions ∅ (set_questions qs g) /\
    NoDup (Dict.keys qs).
Proof.
  unfold load_questions.
  change (set_asked_questions ∅ (set_questions [] g)) with
    (set_asked_questions ∅ (set_questions ([] : Dict.t qdata) g)).
  assert (Hnil : NoDup (Dict.keys ([] : Dict.t qdata))) by constructor.
  repeat case_match;
    first [ by apply load_files_shape
          | by apply load_questions_from_file_shape ].
Qed.
End Loading.

(** ** A round without interruption *)

Section Rounds.
Import Quiz Round.

Lemma asked_app o1 o2 : asked (o1 ++ o2) = asked o1 ++ asked o2.
Proof. apply omap_app. Qed.

Lemma stored_app o1 o2 : stored (o1 ++ o2) = stored o1 ++ stored o2.
Proof. apply omap_app. Qed.

Lemma asked_say g ms : asked (say g ms) = omap question_of ms.
Proof.
  induction ms as [| m ms IH]; [done |].
  change (asked (say g (m :: ms))) with
    (match question_of m with
     | Some q => q :: asked (say g ms)
     | None => asked (say g ms)
     end).
  by rewrite IH.
Qed.

Lemma stored_say g ms : stored (say g ms) = [].
Proof. unfold stored, say. by induction ms. Qed.

Lemma answer_lines_ask_nothing (answers : Dict.t string) :
  omap question_of ((λ '(label, answer), AnswerLine label answer) <$> answers)
  = [].
Proof. induction answers as [| [l a] answers IH]; simpl; done. Qed.

(** A question not yet asked is put to the channel once, and becomes
    the current question. *)
Lemma ask_question_fresh g question i data :
  question ∉ asked_questions g ->
  exists g' out,
    ask_question g question i data = (g', out) /\
    asked out = [question] /\ stored out = [] /\
    current_question g' = Some question /\
    asked_questions g' = {[question]} ∪ asked_questions g /\
    questions g' = questions g /\ scores g' = scores g /\
    channel g' = channel g.
Proof.
  intros Hfresh. unfold ask_question.
  rewrite bool_decide_eq_false_2 by done.
  eexists _, _. split; [reflexivity |].
  rewrite asked_say, stored_say, !omap_app, answer_lines_ask_nothing.
  done.
Qed.

Lemma show_results_ok g question data :
  current_question g = Some question ->
  Dict.get question (questions g) = Some data ->
  is_Some (Dict.get (correct data) (answers data)) ->
  exists out, show_results g = (out, Returned) /\
              asked out = [] /\ stored out = [].
Proof.
  intros Hc Hq [text Ht]. unfold show_results, current_data.
  rewrite Hc, Hq, Ht. eexists. split; [reflexivity |].
  by rewrite asked_say, stored_say.
Qed.

(** The loop of [start_quiz] over questions drawn from the loaded ones,
    no two alike and none asked before: each is asked once, in order,
    and nothing is stored. *)
Lemma ask_all_asks_each selected : forall g i,
  NoDup (Dict.keys (questions g)) ->
  well_formed (questions g) ->
  selected ⊆ questions g ->
  NoDup (Dict.keys selected) ->
  (forall q, q ∈ Dict.keys selected -> q ∉ asked_questions g) ->
  exists g' out,
    ask_all g selected i = (g', out, Returned) /\
    asked out = Dict.keys selected /\ stored out = [] /\
    scores g' = scores g /\ channel g' = channel g.
Proof.
  induction selected as [| [question data] rest IH];
    intros g i Hnd Hwf Hsub Hsel Hfresh; simpl.
  - by eexists _, _.
  - assert (Hin : (question, data) ∈ questions g)
      by (apply Hsub; left).
    apply NoDup_cons in Hsel as [Hq Hrest].
    destruct (ask_question_fresh g question i data)
      as (g1 & o1 & -> & Ha1 & Hs1 & Hcur & Hasked & Hqs & Hsc & Hch).
    { apply Hfresh. left. }
    destruct (show_results_ok g1 question data) as (o2 & -> & Ha2 & Hs2).
    { done. }
    { rewrite Hqs. by apply dict_get_elem. }
    { unfold well_formed in Hwf. rewrite Forall_forall in Hwf.
      apply (Hwf _ Hin). }
    destruct (IH g1 (S i)) as (g2 & o3 & -> & Ha3 & Hs3 & Hsc2 & Hch2).
    { by rewrite Hqs. }
    { by rewrite Hqs. }
    { rewrite Hqs. intros x Hx. apply Hsub. by right. }
    { done. }
    { intros q Hq'. rewrite Hasked. intros [Heq | Hold]%elem_of_union.
      - apply elem_of_singleton in Heq. subst q. by apply Hq.
      - revert Hold. apply Hfresh. by right. }
    eexists _, _. split; [reflexivity |].
    rewrite !asked_app, !stored_app, Ha1, Ha2, Ha3, Hs1, Hs2, Hs3.
    split_and!; try done; congruence.
Qed.

Lemma score_lines_ask_nothing (f : string -> string) (l : list (string * Z)) :
  omap question_of ((λ '(user, score), ScoreLine (f user) score) <$> l) = [].
Proof. induction l as [| [] l IH]; simpl; done. Qed.

Lemma asked_store_scores (l : list (string * Z)) :
  asked ((λ '(user, score), StoreScore user score) <$> l) = [].
Proof. induction l as [| [] l IH]; simpl; done. Qed.

Lemma stored_store_scores (l : list (string * Z)) :
  stored ((λ '(user, score), StoreScore user score) <$> l) = l.
Proof.
  induction l as [| [user score] l IH]; [done |].
  change (stored ((λ '(user, score), StoreScore user score)
                    <$> (user, score) :: l))
    with ((user, score)
            :: stored ((λ '(user, score), StoreScore user score) <$> l)).
  by rewrite IH.
Qed.

(** With at least one score to report, [end_quiz] stores every score,
    asks nothing and resets the game. *)
Lemma end_quiz_stores g :
  scores g <> [] ->
  exists out,
    end_quiz g =
      (reset_game (set_joining_allowed false (set_game_active false g)),
       out, Returned) /\
    asked out = [] /\ stored out = scores g.
Proof.
  intros Hs. unfold end_quiz.
  destruct (scores g) as [| [user0 score0] others] eqn:E; [done |].
  eexists. split; [reflexivity |].
  rewrite !asked_app, !stored_app, asked_say, stored_say, !omap_app.
  rewrite score_lines_ask_nothing, asked_store_scores, stored_store_scores.
  done.
Qed.
End Rounds.

Section RoundTheorem.
Import Quiz Round.

(** X24.  A call of [start_quiz] by itself, no other handler running
    during its sleeps.  Without a participant it announces the
    cancellation, asks no question and leaves the round Idle.  With at
    least one participant, the questions of the category loaded and each
    listing its correct label, it asks exactly min(question_count, number
    of loaded questions) questions, all of them loaded questions and no
    two the same, then stores one score for each participant and leaves
    the round Idle. *)
Theorem start_quiz_round w rng g category :
  (participants g = [] ->
   start_quiz w rng g category =
     (reset_game g,
      [Privmsg (channel g) QuizCancelledNoParticipants;
       Mode (channel g) "-m"], Returned) /\
   round_state (reset_game g) = Idle) /\
  (participants g <> [] ->
   forall g1,
     load_questions w category g = (g1, true) ->
     well_formed (questions g1) ->
     exists g' out,
       start_quiz w rng g category = (g', out, Returned) /\
       round_state g' = Idle /\
       length (asked out)
         = (question_count g `min` length (questions g1))%nat /\
       NoDup (asked out) /\
       asked out ⊆ Dict.keys (questions g1) /\
       stored out = (λ x, (x.1, 0)) <$> participants g).
Proof.
  split.
  - intros Hp. unfold start_quiz, start_quiz_setup. by rewrite Hp.
  - intros Hp g1 Hload Hwf.
    destruct (load_questions_shape w category g) as (qs & Hshape & Hnd).
    rewrite Hload in Hshape. simpl in Hshape. subst g1. simpl in *.
    unfold start_quiz, start_quiz_setup.
    destruct (participants g) as [| p ps] eqn:Eps; [done |].
    cbn [Dict.is_empty]. rewrite Hload. cbn [negb].
    cbn [questions question_count set_scores set_game_active
         set_asked_questions set_questions].
    set (k := (question_count g `min` length qs)%nat).
    set (selected := sample rng qs k).
    assert (Hsub : selected ⊆+ qs) by apply sample_submseteq.
    match goal with
    | |- context [ask_all ?g0 selected 1] => set (g2 := g0)
    end.
    destruct (ask_all_asks_each selected g2 1%nat)
      as (g3 & o1 & -> & Ha1 & Hs1 & Hsc & Hch).
    { done. }
    { done. }
    { by apply submseteq_incl. }
    { apply (submseteq_NoDup _ (Dict.keys qs)); [| done].
      by apply fmap_submseteq. }
    { intros q _. apply not_elem_of_empty. }
    destruct (end_quiz_stores g3) as (o2 & -> & Ha2 & Hs2).
    { rewrite Hsc. subst g2. simpl. by rewrite Eps. }
    eexists _, _. split; [reflexivity |].
    rewrite asked_app, stored_app, Ha1, Ha2, Hs1, Hs2, Hsc, app_nil_r.
    split_and!.
    + done.
    + unfold Dict.keys. rewrite length_fmap. apply sample_length. lia.
    + apply (submseteq_NoDup _ (Dict.keys qs)); [| done].
      by apply fmap_submseteq.
    + apply submseteq_incl. by apply fmap_submseteq.
    + subst g2. simpl. by rewrite Eps.
Qed.

Lemma start_quiz_round_witness :
  let g := Demo.game_after Demo.world Demo.bot Demo.recruiting in
  exists g' out,
    start_quiz Demo.world [2; 0; 0]%nat g "Science" = (g', out, Returned) /\
    round_state g' = Idle /\
    length (asked out) = 3%nat /\
    NoDup (asked out) /\
    asked out ⊆ ["q1"; "q2"; "q3"] /\
    stored out = [("alice", 0)].
Proof.
  destruct (start_quiz_round Demo.world [2; 0; 0]%nat
              (Demo.game_after Demo.world Demo.bot
                 Demo.recruiting) "Science") as [_ H].
  apply (H ltac:(vm_compute; congruence)
           (load_questions Demo.world "Science"
              (Demo.game_after Demo.world Demo.bot
                 Demo.recruiting)).1).
  - vm_compute. reflexivity.
  - vm_compute. repeat constructor; by eexists.
Defined.
End RoundTheorem.

(** ** The sleeping call of start_quiz *)

Section Threads.
Import Quiz Round Bot.

(** The loop of [start_quiz] followed by [end_quiz] is the same as going
    from sleep to sleep. *)
Lemma loop_as_sleeps rest : forall g i,
  match ask_all g rest i with
  | (g1, o1, Raised e) => (g1, o1, Raised e)
  | (g1, o1, Returned) =>
      let '(g2, o2, r) := end_quiz g1 in (g2, o1 ++ o2, r)
  end =
  let '(g1, o1, st) := to_next_sleep g rest i in
  let '(g2, o2, r) := sleep_through (length rest) g1 st in
  (g2, o1 ++ o2, r).
Proof.
  induction rest as [| [question data] rest IH]; intros g i; simpl.
  - destruct (end_quiz g) as [[g2 o2] r]. by rewrite app_nil_r.
  - destruct (ask_question g question i data) as [g1 o1].
    unfold start_quiz_wake. simpl.
    destruct (show_results g1) as [o2 [| e]].
    + specialize (IH g1 (S i)).
      destruct (ask_all g1 rest (S i)) as [[g3 o3] [| e]].
      * destruct (to_next_sleep g1 rest (S i)) as [[g4 o4] st].
        destruct (sleep_through (length rest) g4 st) as [[g5 o5] r5].
        destruct (end_quiz g3) as [[g6 o6] r6].
        injection IH as <- H2 <-. rewrite <- !app_assoc. by rewrite H2.
      * destruct (to_next_sleep g1 rest (S i)) as [[g4 o4] st].
        destruct (sleep_through (length rest) g4 st) as [[g5 o5] r5].
        injection IH as <- H2 <-. rewrite <- !app_assoc. by rewrite H2.
    + destruct rest; simpl; by rewrite app_nil_r.
Qed.

(** [start_quiz], run without interruption, is the firing of the timer
    followed by the ends of its sleeps. *)
Lemma start_quiz_as_sleeps w rng g category :
  exists fuel,
    start_quiz w rng g category =
    let '(g1, o1, st) := start_quiz_begin w rng g category in
    let '(g2, o2, r) := sleep_through fuel g1 st in
    (g2, o1 ++ o2, r).
Proof.
  unfold start_quiz, start_quiz_begin.
  destruct (start_quiz_setup w rng g category) as [g1 [out | selected]].
  - exists 0%nat. simpl. by rewrite app_nil_r.
  - exists (length selected). apply loop_as_sleeps.
Qed.

(** What a sleeping call does when it wakes does not depend on
    [game_active]: after [stop_game] it sends what it would have sent,
    and goes on to the same sleep or the same end. *)
Lemma wake_ignores_stop g nick th :
  game_active g = true ->
  let '(_, out, st) := start_quiz_wake g th in
  let '(_, out', st') := start_quiz_wake (Admin.stop_game g nick).1 th in
  out' = out /\ st' = st.
Proof.
  intros Ha. unfold Admin.stop_game. rewrite Ha. simpl.
  unfold start_quiz_wake, show_results, current_data. simpl.
  destruct (current_question g) as [q |]; [| done].
  destruct (Dict.get q (questions g)) as [data |]; [| done].
  destruct (Dict.get (correct data) (answers data)); [| done].
  unfold to_next_sleep.
  destruct (remaining th) as [| [question d] rest].
  - unfold end_quiz. simpl. by destruct (scores g) as [| [] ?].
  - unfold ask_question. simpl. by case_bool_decide.
Qed.

(** A recruitment timer that fires on a game that has been reset finds
    no participant: it asks nothing and stores nothing, it announces a
    cancellation and resets the game once more. *)
Lemma timer_after_reset w rng g category :
  start_quiz_begin w rng (reset_game g) category =
    (reset_game (reset_game g),
     [Privmsg (channel g) QuizCancelledNoParticipants;
      Mode (channel g) "-m"], Ended Returned).
Proof. done. Qed.

(** C1, on the code.  bob starts a round, alice joins, the recruitment
    timer fires and the first of three questions is asked.  An admin
    then stops the game: it is no longer active.  When the sleeps of the
    call of [start_quiz] end all the same, the call asks the two
    questions that remain and concludes the round, storing the score of
    alice. *)
Theorem stopped_quiz_runs_on :
  let b := Demo.bot_after Demo.world Demo.bot
             (Demo.first_question ++ [Admin_stop_game "op"]) in
  game_active (quiz_game b) = false /\
  length (threads b) = 1%nat /\
  match run Demo.world b [Sleep_ends 0; Sleep_ends 0; Sleep_ends 0] with
  | Some (b', out) =>
      asked out = ["q3"; "q2"] /\ stored out = [("alice", 0)] /\
      threads b' = []
  | None => False
  end.
Proof. vm_compute. done. Qed.
End Threads.

(** ** Disconnection *)

Section Disconnection.
Import Quiz Round Bot.

Lemma insert_by_score_perm x l : insert_by_score x l ≡ₚ x :: l.
Proof.
  induction l as [| y l IH]; simpl; [done |].
  case_bool_decide; [done |]. rewrite IH. apply perm_swap.
Qed.

(** Sorting the scores keeps every entry, once. *)
Lemma sorted_by_score_perm items : sorted_by_score items ≡ₚ items.
Proof.
  unfold sorted_by_score.
  assert (forall acc, foldl (λ acc x, insert_by_score x acc) acc items
                      ≡ₚ items ++ acc) as H.
  { induction items as [| x items IH]; intros acc; simpl; [done |].
    rewrite IH, insert_by_score_perm. by rewrite Permutation_middle. }
  by rewrite H, app_nil_r.
Qed.

Lemma surfaced_say g ms : surfaced (say g ms) = omap partial_score_of ms.
Proof.
  induction ms as [| m ms IH]; [done |].
  change (surfaced (say g (m :: ms))) with
    (match partial_score_of m with
     | Some s => s :: surfaced (say g ms)
     | None => surfaced (say g ms)
     end).
  by rewrite IH.
Qed.

Lemma partial_lines_show (l : list (string * Z)) :
  omap partial_score_of
    ((λ '(user, score), PartialScoreLine user score) <$> l) = l.
Proof.
  induction l as [| [user score] l IH]; [done |].
  rewrite fmap_cons. cbn [omap list_omap partial_score_of].
  f_equal. apply IH.
Qed.

Lemma on_join_interrupted g nick :
  game_interrupted g = true ->
  exists out,
    on_join g nick nick = (reset_game (set_game_interrupted false g), out) /\
    surfaced out = sorted_by_score (scores g) /\ stored out = [].
Proof.
  intros Hi. unfold on_join. rewrite String.eqb_refl, Hi. cbn [andb].
  eexists. split; [reflexivity |].
  unfold surfaced at 1. unfold stored at 1. rewrite !omap_app.
  fold (surfaced (say g ([Blank; InterruptedWarning]
          ++ (if Dict.is_empty (scores g) then []
              else PartialScoresHeader
                   :: ((λ '(user, score), PartialScoreLine user score)
                         <$> sorted_by_score (scores g)))
          ++ [CancelledStartNew; Blank]))).
  fold (stored (say g ([Blank; InterruptedWarning]
          ++ (if Dict.is_empty (scores g) then []
              else PartialScoresHeader
                   :: ((λ '(user, score), PartialScoreLine user score)
                         <$> sorted_by_score (scores g)))
          ++ [CancelledStartNew; Blank]))).
  rewrite surfaced_say, stored_say, !omap_app. simpl. rewrite !app_nil_r.
  split; [| done].
  destruct (scores g) as [| s l] eqn:E; [done |].
  cbn [Dict.is_empty omap list_omap partial_score_of].
  apply partial_lines_show.
Qed.

(** The two handlers by themselves.  When the connection drops during
    an Active round, [on_disconnect] flags the game interrupted and
    keeps the scores; when the bot is back on its channel, [on_join]
    shows every score once, stores none and resets the game to Idle, so
    that a second join shows nothing. *)
Lemma disconnect_then_rejoin b connect_ok :
  should_reconnect b = true ->
  game_active (quiz_game b) = true ->
  let g1 := quiz_game (on_disconnect b connect_ok) in
  game_interrupted g1 = true /\
  scores g1 = scores (quiz_game b) /\
  round_state g1 = Concluded /\
  exists g2 out,
    on_join g1 (nickname b) (nickname b) = (g2, out) /\
    surfaced out ≡ₚ scores (quiz_game b) /\
    stored out = [] /\
    participants g2 = [] /\ scores g2 = [] /\
    round_state g2 = Idle /\
    on_join g2 (nickname b) (nickname b) = (g2, []).
Proof.
  intros Hre Hact.
  assert (quiz_game (on_disconnect b connect_ok)
          = cancel_active_game (quiz_game b)) as ->.
  { unfold on_disconnect. simpl. rewrite Hre. simpl.
    by repeat case_match. }
  unfold cancel_active_game. rewrite Hact. cbn zeta.
  split_and!; try done.
  destruct (on_join_interrupted
              (set_joining_allowed false
                 (set_game_interrupted true
                    (set_game_active false (quiz_game b))))
              (nickname b) eq_refl) as (out & -> & Hsurf & Hst).
  eexists _, _. split; [reflexivity |]. rewrite Hsurf.
  split_and!; try done.
  - apply sorted_by_score_perm.
  - unfold on_join. simpl. by rewrite andb_false_r.
Qed.

(** A call of [start_quiz] that wakes once the game has been reset finds
    no current question: it dies of a KeyError, having sent and stored
    nothing. *)
Lemma wake_after_reset g th :
  start_quiz_wake (reset_game g) th
  = (reset_game g, [], Ended (Raised KeyError)).
Proof. done. Qed.

(** C6, on the code.  A round of one question: bob starts it, alice
    joins, the question is asked and alice answers it rightly.  The
    connection drops and is set up again by [on_disconnect]: the game is
    flagged interrupted and alice keeps her point.  The sleep of the
    call of [start_quiz] ends before the bot is back on its channel: the
    call concludes the round and stores the score of alice; when the bot
    then joins its channel, no partial score is shown. *)
Theorem interrupted_round_is_stored :
  let b := Demo.bot_after Demo.world Demo.short_bot
             (Demo.first_question
                ++ [Priv_answer "alice" "a" 100; Disconnected true]) in
  game_interrupted (quiz_game b) = true /\
  scores (quiz_game b) = [("alice", 1)] /\
  connected b = true /\
  match run Demo.world b [Sleep_ends 0; Joined "Quizzer"] with
  | Some (b', out) =>
      stored out = [("alice", 1)] /\ surfaced out = [] /\
      round_state (quiz_game b') = Idle
  | None => False
  end.
Proof. vm_compute. done. Qed.
End Disconnection.

(** ** A second start during a round *)

Section SecondStart.
Import Quiz Round Bot.

(** C5.  A round with one participant asks a question twice, and more
    questions than the category has.  Five questions are configured and
    the file of the category Science holds three, q1, q2 and q3.  bob
    starts a round and alice joins; the timer fires and q1 is asked.
    During that question carol sends [!start science]:
    [handle_start_command] reloads the questions, empties the set of
    asked questions, tells carol that a quiz is already active and, for
    want of a [return], announces and schedules a second [start_quiz].
    The first call goes on to q3 and q2; then the second timer fires,
    and the second call, in the same round, still Active, asks q1 again:
    four questions where min(5, 3) = 3, and q1 twice.  When the first
    call wakes for the last time it ends the round and stores the
    score. *)
Theorem second_start_repeats_question :
  question_count Demo.game = 5%nat /\
  read_json Demo.world (questions_file "Science") = Some Demo.science /\
  q_question <$> Demo.science = ["q1"; "q2"; "q3"] /\
  participants (Demo.game_after Demo.world Demo.bot Demo.first_question)
    = [("alice", 0)] /\
  (exists b out,
     run Demo.world Demo.bot Observe.second_start = Some (b, out) /\
     round_state (quiz_game b) = Active /\
     asked out = ["q1"; "q3"; "q2"; "q1"] /\
     stored out = []) /\
  (exists b out,
     run Demo.world Demo.bot (Observe.second_start ++ [Sleep_ends 0])
       = Some (b, out) /\
     round_state (quiz_game b) = Idle /\
     asked out = ["q1"; "q3"; "q2"; "q1"] /\
     stored out = [("alice", 0)]).
Proof.
  split_and!; try (vm_compute; reflexivity);
    eexists _, _; (split; [vm_compute; reflexivity |]); vm_compute; done.
Qed.
End SecondStart.

(** * Further properties *)

(** ** Sessions *)

Section Sessions.
Import Verifier.

Lemma verify_password_grants cr v nick password now token :
  (verify_password cr v nick password now token).2.1 = true ->
  sessions (verify_password cr v nick password now token).1 !! Py.lower nick
    = Some (now + session_timeout v, token).
Proof.
  unfold verify_password. repeat case_match; simpl; try done.
  intros _. apply lookup_insert_eq.
Qed.

(** X1.  A successful [verify_password] opens a session that
    [verify_session] accepts, without changing anything, at every time up
    to and including [now + session_timeout]; at any later time
    [verify_session] refuses and deletes the session. *)
Theorem verified_session_lasts cr v nick password now token t :
  (verify_password cr v nick password now token).2.1 = true ->
  let v' := (verify_password cr v nick password now token).1 in
  if bool_decide (t <= now + session_timeout v)
  then verify_session v' nick t = (v', true)
  else (verify_session v' nick t).2 = false /\
       sessions (verify_session v' nick t).1 !! Py.lower nick = None.
Proof.
  intros Hok. pose proof (verify_password_grants _ _ _ _ _ _ Hok) as Hs.
  cbv zeta. unfold verify_session. rewrite Hs.
  case_bool_decide as Ht.
  - rewrite bool_decide_eq_false_2 by lia. done.
  - rewrite bool_decide_eq_true_2 by lia. simpl.
    split; [done | apply lookup_delete_eq].
Qed.

Lemma verified_session_lasts_witness :
  let v' := (verify_password Demo.crypto Demo.verifier "Alice" "secret"
               1000 "t").1 in
  verify_session v' "ALICE" 4600 = (v', true).
Proof.
  apply (verified_session_lasts Demo.crypto Demo.verifier "ALICE" "secret"
           1000 "t" 4600).
  vm_compute. reflexivity.
Defined.
End Sessions.

(** ** Passwords and lockout *)

Section MorePasswords.
Import Verifier.

Lemma verify_password_keeps_accounts cr v nick password now token :
  let v' := (verify_password cr v nick password now token).1 in
  admin_nicks v' = admin_nicks v /\
  password_hashes v' = password_hashes v /\
  hostmasks v' = hostmasks v /\
  session_timeout v' = session_timeout v.
Proof. unfold verify_password. by repeat case_match. Qed.

Lemma verify_passwords_keep cr calls : forall v,
  never_locked v ->
  Forall (fun c => 0 <= c.1.2) calls ->
  let v' := (verify_passwords cr v calls).1 in
  never_locked v' /\ admin_nicks v' = admin_nicks v /\
  password_hashes v' = password_hashes v /\
  session_timeout v' = session_timeout v.
Proof.
  induction calls as [| [[[nick password] now] token] calls IH];
    intros v Hv Hnow; simpl; [done |].
  apply Forall_cons in Hnow as [Hnow Hrest]. simpl in Hnow.
  destruct (verify_password_never_locks cr v nick password now token Hv Hnow)
    as [_ Hv1].
  destruct (verify_password_keeps_accounts cr v nick password now token)
    as (Ha & Hp & _ & Ht).
  destruct (verify_password cr v nick password now token) as [v1 r].
  simpl in *. specialize (IH v1 Hv1 Hrest).
  destruct (verify_passwords cr v1 calls) as [v2 rs]. simpl in *.
  destruct IH as (? & ? & ? & ?). split_and!; first [done | congruence].
Qed.

(** X2.  A verifier as [__init__] leaves it never locks anybody out,
    whatever is tried and however often (the times of the calls being
    those of a clock that is not negative): no call is answered with the
    lockout message, and afterwards the right password of an admin is
    accepted at once. *)
Theorem fresh_verifier_never_locks cr nicks method timeout attempts duration
    hashes masks calls :
  Forall (fun c => 0 <= c.1.2) calls ->
  let v0 := init nicks method timeout attempts duration hashes masks in
  let (v, answers) := verify_passwords cr v0 calls in
  Forall (fun r => forall remaining, r.2 <> msg_locked_out remaining) answers /\
  forall nick password hashed now token,
    0 <= now -> is_admin v0 nick = true ->
    hashes !! Py.lower nick = Some hashed ->
    _verify_password cr password hashed = true ->
    (verify_password cr v nick password now token).2
      = (true, msg_success timeout).
Proof.
  intros Hnow v0.
  assert (Hv0 : never_locked v0) by (intros n c u H; done).
  pose proof (lockout_never_engages cr calls v0 Hv0 Hnow) as Hall.
  destruct (verify_passwords_keep cr calls v0 Hv0 Hnow) as (Hv & Ha & Hp & Ht).
  destruct (verify_passwords cr v0 calls) as [v answers]. simpl in *.
  split; [done |].
  intros nick password hashed now token Hn Hadm Hh Hpw.
  destruct (verify_password_never_locks cr v nick password now token Hv Hn)
    as [Hl _].
  assert (Hadm' : bool_decide (Py.lower nick ∈ admin_nicks v) = true)
    by (rewrite Ha; exact Hadm).
  assert (Hh' : password_hashes v !! Py.lower nick = Some hashed)
    by (rewrite Hp; exact Hh).
  unfold locked_out in Hl. unfold verify_password.
  destruct (check_lockout v (Py.lower nick) now); [done |].
  unfold is_admin. cbn [admin_nicks password_hashes set_failed_attempts].
  rewrite Hadm'. cbn [negb]. rewrite Hh', Hpw. cbn. by rewrite Ht.
Qed.

Lemma fresh_verifier_never_locks_witness :
  let (v, answers) :=
    verify_passwords Demo.crypto Demo.verifier
      [("Alice", "a", 10, "t"); ("Alice", "b", 11, "t");
       ("Alice", "c", 12, "t"); ("Alice", "d", 13, "t")] in
  Forall (fun r => forall remaining, r.2 <> msg_locked_out remaining) answers /\
  (verify_password Demo.crypto v "Alice" "secret" 14 "t").2
    = (true, msg_success 3600).
Proof.
  pose proof (fresh_verifier_never_locks Demo.crypto ["Alice"; "Bob"]
                "password" 3600 3 300 {["alice" := "secret"]} ∅
                [("Alice", "a", 10, "t"); ("Alice", "b", 11, "t");
                 ("Alice", "c", 12, "t"); ("Alice", "d", 13, "t")]) as H.
  cbv zeta in H. fold Demo.verifier in H.
  destruct (verify_passwords Demo.crypto Demo.verifier _) as [v answers].
  destruct H as [H1 H2]; [repeat constructor; simpl; lia |].
  split; [exact H1 |].
  apply (H2 "Alice" "secret" "secret" 14 "t");
    [lia | reflexivity | reflexivity | reflexivity].
Defined.

(** X3.  With bcrypt installed, a stored hash that is not in bcrypt's
    format (an old SHA-256 digest) verifies no password: every attempt of
    the admin is answered [Incorrect password.]. *)
Theorem legacy_hash_never_verifies cr v nick password now token hashed :
  HAS_BCRYPT cr = true ->
  is_bcrypt_hash hashed = false ->
  is_admin v nick = true ->
  password_hashes v !! Py.lower nick = Some hashed ->
  locked_out v nick now = None ->
  (verify_password cr v nick password now token).2 = (false, msg_incorrect).
Proof.
  intros Hb Hf Ha Hh Hl. unfold locked_out in Hl. unfold verify_password.
  destruct (check_lockout v (Py.lower nick) now); [done |].
  unfold is_admin in *. simpl. rewrite Ha, Hh. simpl.
  unfold _verify_password. by rewrite Hb, Hf.
Qed.

Lemma legacy_hash_never_verifies_witness :
  let cr := {| HAS_BCRYPT := true;
               bcrypt_checkpw := fun _ _ => Some true;
               sha256_hexdigest := id |} in
  (verify_password cr Demo.verifier "Alice" "secret" 1000 "t").2
    = (false, msg_incorrect).
Proof.
  apply (legacy_hash_never_verifies
           {| HAS_BCRYPT := true; bcrypt_checkpw := fun _ _ => Some true;
              sha256_hexdigest := id |}
           Demo.verifier "Alice" "secret" 1000 "t" "secret");
    reflexivity.
Defined.
End MorePasswords.

(** ** The dispatch of verify *)

Section Verify.
Import Verifier.

(** The method [verify] goes by. *)
Lemma verify_session_keeps_accounts v nick now :
  admin_nicks (verify_session v nick now).1 = admin_nicks v /\
  hostmasks (verify_session v nick now).1 = hostmasks v.
Proof. unfold verify_session. by repeat case_match. Qed.

Lemma verify_hostmask_reads_accounts re v v' nick hostmask :
  admin_nicks v' = admin_nicks v -> hostmasks v' = hostmasks v ->
  verify_hostmask re v' nick hostmask = verify_hostmask re v nick hostmask.
Proof.
  intros Ha Hh. unfold verify_hostmask, is_admin. by rewrite Ha, Hh.
Qed.

(** X4.  [verify] accepts nobody who is not an admin and nobody under the
    method nickserv, and it changes the verifier only for an admin under
    the methods password and combined: verification by hostmask leaves no
    trace. *)
Theorem verify_never cr re v nick method password hostmask now token :
  let m := if given method then default "" method
           else verification_method v in
  let r := verify cr re v nick method password hostmask now token in
  (r.2 = true -> is_admin v nick = true /\ m <> "nickserv") /\
  (r.1 <> v -> is_admin v nick = true /\ (m = "password" \/ m = "combined")).
Proof.
  cbv zeta. unfold verify.
  destruct (is_admin v nick); simpl; [| done].
  destruct (String.eqb _ "nickserv") eqn:E1; simpl.
  { split; [done | by intros []]. }
  apply String.eqb_neq in E1.
  destruct (String.eqb _ "password") eqn:E2; simpl.
  { apply String.eqb_eq in E2. split; [done | intros _; split; [done | by left]]. }
  destruct (String.eqb _ "hostmask") eqn:E3; simpl.
  { destruct (given hostmask); simpl; (split; [done | by intros []]). }
  destruct (String.eqb _ "combined") eqn:E4; simpl.
  { apply String.eqb_eq in E4. split; [done | intros _; split; [done | by right]]. }
  split; [done | by intros []].
Qed.

(** X5.  An admin with a live session is verified under the methods
    password and combined whatever password and hostmask come with the
    request, and nothing is changed or recorded. *)
Theorem live_session_suffices cr re v nick method password hostmask now token :
  is_admin v nick = true ->
  verify_session v nick now = (v, true) ->
  method = "password" \/ method = "combined" ->
  verify cr re v nick (Some method) password hostmask now token = (v, true).
Proof.
  intros Ha Hs [-> | ->]; unfold verify; simpl; rewrite Ha; simpl;
    by rewrite Hs.
Qed.

Lemma live_session_suffices_witness :
  let v := (verify_password Demo.crypto Demo.verifier "Alice" "secret"
              1000 "t").1 in
  verify Demo.crypto Demo.re_match v "alice" (Some "combined")
    (Some "wrong") None 2000 "u" = (v, true).
Proof.
  apply (live_session_suffices Demo.crypto Demo.re_match
           (verify_password Demo.crypto Demo.verifier "Alice" "secret"
              1000 "t").1
           "alice" "combined" (Some "wrong") None 2000 "u").
  - reflexivity.
  - vm_compute. reflexivity.
  - right. reflexivity.
Defined.

(** X6.  The method combined accepts whatever the method password or the
    method hostmask accepts for the same request. *)
Theorem combined_accepts_either cr re v nick password hostmask now token :
  (verify cr re v nick (Some "password") password hostmask now token).2 = true
  \/ (verify cr re v nick (Some "hostmask") password hostmask now token).2
     = true ->
  (verify cr re v nick (Some "combined") password hostmask now token).2 = true.
Proof.
  unfold verify. simpl. destruct (is_admin v nick); simpl; [| by intros []].
  pose proof (verify_session_keeps_accounts v nick now) as [Ha1 Hh1].
  destruct (verify_session v nick now) as [v1 live]. simpl in *.
  destruct live; [done |].
  intros [H | H].
  - destruct (given password); [| done].
    destruct (verify_password cr v1 nick (default "" password) now token)
      as [v2 [ok msg]]. simpl in *. by rewrite H.
  - destruct (given hostmask); [| done]. simpl in H.
    destruct (given password).
    + pose proof (verify_password_keeps_accounts cr v1 nick
                    (default "" password) now token) as (Ha2 & _ & Hh2 & _).
      destruct (verify_password cr v1 nick (default "" password) now token)
        as [v2 [ok msg]]. simpl in *. destruct ok; [done |]. simpl.
      rewrite <- H. apply verify_hostmask_reads_accounts; congruence.
    + simpl. rewrite <- H. by apply verify_hostmask_reads_accounts.
Qed.

Lemma combined_accepts_either_witness :
  (verify Demo.crypto Demo.re_match Demo.verifier "Alice" (Some "combined")
     (Some "secret") None 1000 "t").2 = true.
Proof.
  apply (combined_accepts_either Demo.crypto Demo.re_match Demo.verifier
           "Alice" (Some "secret") None 1000 "t").
  left. vm_compute. reflexivity.
Defined.
End Verify.

(** ** Patterns without a wildcard *)

Section Literal.
Import Verifier.

Lemma split_not_nil sep s : Py.split sep s <> [].
Proof. destruct s as [| c s]; simpl; [done |]. by repeat case_match. Qed.

(** Joining the fields of a split gives the string back. *)
Lemma join_split sep s :
  Text.join (String sep EmptyString) (Py.split sep s) = s.
Proof.
  induction s as [| c s IH]; [done |]. simpl.
  destruct (Ascii.eqb c sep) eqn:E.
  - apply Ascii.eqb_eq in E. subst c.
    pose proof (split_not_nil sep s).
    destruct (Py.split sep s) as [| h t]; [done |].
    simpl in *. by rewrite IH.
  - destruct (Py.split sep s) as [| h t]; [by simpl in IH; subst |].
    simpl in *. destruct t; simpl in *; by rewrite <- IH.
Qed.

Lemma split_keeps_absent c sep s :
  Py.contains c s = false ->
  Forall (fun f => Py.contains c f = false) (Py.split sep s).
Proof.
  induction s as [| d s IH]; simpl; [by repeat constructor |].
  destruct (Ascii.eqb d c) eqn:E; [done |]. intros H. specialize (IH H).
  destruct (Ascii.eqb d sep).
  - by constructor.
  - destruct (Py.split sep s) as [| h t]; simpl.
    + repeat constructor. simpl. by rewrite E.
    + apply Forall_cons in IH as [Hh Ht]. constructor; [| done].
      simpl. by rewrite E.
Qed.

Lemma literal_fields re ps : forall hs,
  Forall (fun p => Py.contains "*" p = false) ps ->
  length ps = length hs ->
  match_fields re ps hs = true <-> ps = hs.
Proof.
  induction ps as [| p ps IH]; intros [| h hs] Hp Hlen; simpl in *; try done.
  apply Forall_cons in Hp as [Hp Hps]. injection Hlen as Hlen.
  unfold match_field. rewrite Hp.
  assert (String.eqb p "*" = false) as ->.
  { apply String.eqb_neq. intros ->. done. }
  destruct (String.eqb p h) eqn:E.
  - apply String.eqb_eq in E. subst h. rewrite (IH hs Hps Hlen).
    split; [by intros -> | by intros [= ->]].
  - apply String.eqb_neq in E. split; [done | by intros [= ? ?]].
Qed.

(** X7.  A pattern that contains no [*] lets exactly one hostmask pass,
    the pattern itself, whatever [re.match] does. *)
Theorem literal_pattern_matches_itself re hostmask pattern :
  Py.contains "*" pattern = false ->
  _match_hostmask re hostmask pattern = true <-> hostmask = pattern.
Proof.
  intros Hc. unfold _match_hostmask.
  pose proof (split_keeps_absent "*" "!" pattern Hc) as Hf.
  destruct (length (Py.split "!" pattern) =? length (Py.split "!" hostmask))%nat
    eqn:E; simpl.
  - apply Nat.eqb_eq in E. rewrite (literal_fields re _ _ Hf E). split.
    + intros H. rewrite <- (join_split "!" hostmask), <- H.
      apply join_split.
    + by intros ->.
  - apply Nat.eqb_neq in E. split; [done |]. intros ->. done.
Qed.

Lemma literal_pattern_matches_itself_witness :
  _match_hostmask Demo.re_match "alice!al@host.example" "alice!al@host.example"
    = true.
Proof.
  apply (literal_pattern_matches_itself Demo.re_match
           "alice!al@host.example" "alice!al@host.example");
    reflexivity.
Defined.
End Literal.

(** ** Setting a password *)

Section SetPassword.
Import Verifier Passwords.

(** Without bcrypt the password set is the password verified. *)
Lemma sha256_round_trip cr hashpw password :
  HAS_BCRYPT cr = false ->
  _verify_password cr password (_hash_password cr hashpw password) = true.
Proof.
  intros H. unfold _verify_password, _hash_password. rewrite H.
  apply String.eqb_refl.
Qed.

(** X8.  After [set_password] for an admin, that password verifies the
    admin and opens a session (provided the back end verifies what it
    hashes, which the SHA-256 fall-back always does), and this also when
    the writing of the hash file failed and [set_password] reported an
    error.  For a nick that is not an admin, [set_password] changes
    nothing. *)
Theorem set_password_then_verify cr hashpw v nick password save_error
    now token :
  let r := set_password cr hashpw v nick password save_error in
  (is_admin v nick = false -> r = (v, (false, msg_not_admin))) /\
  (is_admin v nick = true ->
   _verify_password cr password (_hash_password cr hashpw password) = true ->
   locked_out v nick now = None ->
   r.2.1 = bool_decide (save_error = None) /\
   (verify_password cr r.1 nick password now token).2
     = (true, msg_success (session_timeout v))).
Proof.
  cbv zeta. unfold set_password. split.
  - by intros ->.
  - intros Ha Hv Hl. rewrite Ha. simpl. split; [by destruct save_error |].
    assert (forall v' : AdminVerifier,
              v' = set_password_hashes
                     (<[Py.lower nick := _hash_password cr hashpw password]>
                        (password_hashes v)) v ->
              (verify_password cr v' nick password now token).2
              = (true, msg_success (session_timeout v))) as H.
    { intros v' ->. unfold locked_out in Hl. unfold verify_password.
      unfold check_lockout in *. simpl.
      destruct (failed_attempts v !! Py.lower nick) as [[c u] |];
        [destruct (bool_decide (now < u)); [done |] |];
        unfold is_admin in *; simpl; rewrite Ha; simpl;
        rewrite lookup_insert_eq, Hv; done. }
    destruct save_error; by apply H.
Qed.

Lemma set_password_then_verify_witness :
  let r := set_password Demo.crypto id Demo.verifier "Bob" "hunter2"
             (Some "disk full") in
  r.2.1 = false /\
  (verify_password Demo.crypto r.1 "bob" "hunter2" 1000 "t").2
    = (true, msg_success 3600).
Proof.
  destruct (set_password_then_verify Demo.crypto id Demo.verifier "bob"
              "hunter2" (Some "disk full") 1000 "t") as [_ H].
  apply H; reflexivity.
Defined.
End SetPassword.

(** ** Loading: what the result depends on *)

Section LoadingUniform.
Import Quiz.

Lemma load_entries_uniform w data : forall qs,
  exists qs',
    (NoDup (Dict.keys qs) -> NoDup (Dict.keys qs')) /\
    forall g,
      foldl (load_entry w) (set_asked_questions ∅ (set_questions qs g)) data
      = set_asked_questions ∅ (set_questions qs' g).
Proof.
  induction data as [| q data IH]; intros qs; simpl; [by exists qs |].
  destruct (IH (Dict.set (html_unescape w (q_question q))
                  {| answers := prod_map id (html_unescape w) <$> q_answers q;
                     correct := q_correct q; category := q_category q |} qs))
    as (qs' & Hnd & H).
  exists qs'. split; [intros; by apply Hnd, dict_set_NoDup |].
  intros g. rewrite <- H. f_equal.
Qed.

Lemma load_file_uniform w f qs :
  exists qs' ok,
    (NoDup (Dict.keys qs) -> NoDup (Dict.keys qs')) /\
    forall g,
      load_questions_from_file w f (set_asked_questions ∅ (set_questions qs g))
      = (set_asked_questions ∅ (set_questions qs' g), ok).
Proof.
  unfold load_questions_from_file.
  destruct (read_json w f) as [data |]; [| by exists qs, false].
  destruct (load_entries_uniform w data qs) as (qs' & Hnd & H).
  exists qs', true. split; [done |]. intros g. by rewrite H.
Qed.

Lemma load_files_uniform w fs : forall qs,
  exists qs' ok,
    (NoDup (Dict.keys qs) -> NoDup (Dict.keys qs')) /\
    forall g,
      load_files w fs (set_asked_questions ∅ (set_questions qs g))
      = (set_asked_questions ∅ (set_questions qs' g), ok).
Proof.
  induction fs as [| f fs IH]; intros qs; [by exists qs, true |].
  destruct (load_file_uniform w f qs) as (qs1 & [|] & Hnd1 & H1).
  - destruct (IH qs1) as (qs2 & ok & Hnd2 & H2).
    exists qs2, ok. split; [tauto |]. intros g. simpl. by rewrite H1, H2.
  - exists qs1, false. split; [done |]. intros g. simpl. by rewrite H1.
Qed.

(** In every game [load_questions] installs the same dictionary and
    gives the same answer. *)
Lemma load_questions_uniform w category :
  exists qs ok,
    NoDup (Dict.keys qs) /\
    forall g,
      load_questions w category g
      = (set_asked_questions ∅ (set_questions qs g), ok).
Proof.
  assert (Hnil : NoDup (Dict.keys ([] : Dict.t qdata))) by constructor.
  unfold load_questions.
  destruct (String.eqb category "random").
  { edestruct (load_files_uniform w) as (qs & ok & Hnd & H).
    exists qs, ok. split; [by apply Hnd |]. intros g. apply H. }
  destruct (find_category_match w category) as [[main_cat subcat] is_random].
  set (subcategories := if truthy main_cat && is_random then _ else _).
  destruct subcategories as [| s l].
  - destruct (truthy subcat); [| destruct (truthy main_cat)];
      edestruct (load_file_uniform w) as (qs & ok & Hnd & H);
      exists qs, ok; (split; [by apply Hnd |]); intros g; apply H.
  - edestruct (load_files_uniform w) as (qs & ok & Hnd & H).
    exists qs, ok. split; [by apply Hnd |]. intros g. apply H.
Qed.

(** Entries whose texts are new are appended in the order of the
    file. *)
Lemma load_entries_fresh w data : forall qs g,
  NoDup (Dict.keys qs ++ (Observe.entry_of w <$> data).*1) ->
  foldl (load_entry w) (set_asked_questions ∅ (set_questions qs g)) data
  = set_asked_questions ∅
      (set_questions (qs ++ (Observe.entry_of w <$> data)) g).
Proof.
  induction data as [| q data IH]; intros qs g Hnd; simpl.
  - by rewrite app_nil_r.
  - simpl in Hnd.
    assert (load_entry w (set_asked_questions ∅ (set_questions qs g)) q
            = set_asked_questions ∅
                (set_questions (qs ++ [Observe.entry_of w q]) g)) as ->.
    { unfold load_entry. simpl.
      rewrite bool_decide_eq_false_2 by apply not_elem_of_empty.
      rewrite dict_set_fresh; [done |]. apply dict_get_None.
      apply NoDup_app in Hnd as (_ & Hnd & _). intros Hin.
      apply (Hnd _ Hin). left. }
    rewrite IH.
    + by rewrite <- app_assoc.
    + unfold Dict.keys. rewrite fmap_app, <- app_assoc. exact Hnd.
Qed.

(** X25.  What is loaded for a category that names one file.  When
    [find_category_match] gives a main category alone, and the file of
    that name reads as records whose unescaped question texts are
    pairwise different, [load_questions] succeeds and the questions are
    exactly the records of the file, in the order of the file, each under
    its unescaped text with its answers unescaped. *)
Theorem plain_category_loads_its_file w category g main data :
  String.eqb category "random" = false ->
  find_category_match w category = (Some main, None, false) ->
  main <> "" ->
  read_json w (questions_file (Py.replace " " "_" main)) = Some data ->
  NoDup ((Observe.entry_of w <$> data).*1) ->
  load_questions w category g
  = (set_asked_questions ∅
       (set_questions (Observe.entry_of w <$> data) g), true).
Proof.
  intros Hr Hf Hm Hread Hnd. unfold load_questions. rewrite Hr, Hf.
  apply String.eqb_neq in Hm. simpl. rewrite Hm. simpl.
  unfold load_questions_from_file. rewrite Hread.
  change (set_asked_questions ∅ (set_questions [] g)) with
    (set_asked_questions ∅ (set_questions ([] : Dict.t qdata) g)).
  by rewrite (load_entries_fresh w data [] g Hnd).
Qed.

Lemma plain_category_loads_its_file_witness :
  load_questions Demo.world "science" Demo.game
  = (set_asked_questions ∅
       (set_questions (Observe.entry_of Demo.world <$> Demo.science)
          Demo.game), true).
Proof.
  apply (plain_category_loads_its_file Demo.world "science" Demo.game
           "Science" Demo.science).
  - reflexivity.
  - reflexivity.
  - discriminate.
  - reflexivity.
  - apply (bool_decide_unpack _). by vm_compute.
Defined.

(** X9.  [load_questions] replaces the questions by a dictionary in
    which no question text occurs twice, empties the set of asked
    questions and leaves every other attribute of the game as it was,
    also when it fails; which questions it installs and whether it
    succeeds does not depend on the game it is called on. *)
Theorem load_questions_effect w category g g' :
  let r := load_questions w category g in
  r.1 = set_asked_questions ∅ (set_questions (questions r.1) g) /\
  NoDup (Dict.keys (questions r.1)) /\
  questions (load_questions w category g').1 = questions r.1 /\
  (load_questions w category g').2 = r.2.
Proof.
  destruct (load_questions_uniform w category) as (qs & ok & Hnd & H).
  cbv zeta. by rewrite !H.
Qed.
End LoadingUniform.

(** ** Joining *)

Section Joining.
Import Quiz.

Lemma dict_mem_set {V} (d : Dict.t V) k v : Dict.mem k (Dict.set k v d) = true.
Proof. unfold Dict.mem. by rewrite dict_get_set_eq. Qed.

(** X10.  [handle_join_command] changes nothing but the participants;
    whoever was a participant stays one with the value recorded; after
    the call the nick is a participant exactly if it was one already or
    the game was recruiting; and a second [!join] of the same nick
    changes nothing and is answered with a notice to that nick alone. *)
Theorem join_twice g user :
  let g' := (handle_join_command g user).1 in
  g' = set_participants (participants g') g /\
  (forall u, Dict.mem u (participants g) = true ->
             Dict.get u (participants g') = Dict.get u (participants g)) /\
  (Dict.mem user (participants g') = true <->
   Dict.mem user (participants g) = true \/
   (game_active g = false /\ joining_allowed g = true)) /\
  exists m, handle_join_command g' user = (g', [Notice user m]).
Proof.
  cbv zeta. unfold handle_join_command.
  destruct (game_active g) eqn:Ha, (joining_allowed g) eqn:Hj; simpl;
    rewrite ?Ha, ?Hj; simpl.
  1, 2, 4: split_and!; [by destruct g | done | | by eexists];
    split; [by left | by intros [? | [? ?]]].
  destruct (Dict.mem user (participants g)) eqn:Hm; simpl;
    rewrite ?Ha, ?Hj, ?Hm, ?dict_mem_set; simpl.
  - split_and!; [by destruct g | done | | by eexists].
    split; [by left | done].
  - split_and!; [by destruct g | | | by eexists].
    + intros u Hu. apply dict_get_set_ne. intros ->. congruence.
    + split; [by right | done].
Qed.
End Joining.

(** ** Answers *)

Section Answers.
Import Quiz Round.

(** X11.  [process_answer] changes nothing of the game but the scores,
    the times of the last command and the marks of who has answered, and
    of these only the entries of the caller; the nicks that have a score
    stay the same; it puts no question and stores no score. *)
Theorem process_answer_frame g user answer now :
  let '(g', out, _) := process_answer g user answer now in
  g' = set_answered_participants (answered_participants g')
         (set_last_command_time (last_command_time g')
            (set_scores (scores g') g)) /\
  Dict.keys (scores g') = Dict.keys (scores g) /\
  (forall other, other <> user ->
     Dict.get other (scores g') = Dict.get other (scores g) /\
     last_command_time g' !! other = last_command_time g !! other /\
     answered_participants g' !! other = answered_participants g !! other) /\
  asked out = [] /\ stored out = [].
Proof.
  pose proof (process_answer_keeps g user answer now) as H1.
  pose proof (process_answer_score_keys g user answer now) as H2.
  pose proof (fun other => process_answer_others g user answer now other)
    as H3.
  assert (asked (process_answer g user answer now).1.2 = [] /\
          stored (process_answer g user answer now).1.2 = []) as H4.
  { unfold process_answer. repeat case_match; simplify_eq; done. }
  destruct (process_answer g user answer now) as [[g' out] r].
  simpl in *. by destruct H4.
Qed.

Lemma answered_scores_nothing g user answer now :
  is_Some (answered_participants g !! user) ->
  let '(g', out, r) := process_answer g user answer now in
  r = Returned /\ scores g' = scores g /\
  answered_participants g' = answered_participants g /\
  (out = [] \/ out = say g [PleaseWait user]).
Proof.
  intros Hans. unfold process_answer.
  destruct (rate_limited g user now); [by split_and!; try right |].
  simpl. destruct (_ || _); [by split_and!; try left |].
  rewrite bool_decide_eq_true_2 by done. by split_and!; try left.
Qed.

(** X12.  A participant scores at most once per question: after an
    accepted answer, whatever the same nick sends for the question that
    is still open, and whenever, changes no score; it is answered by the
    request to wait or not at all. *)
Theorem second_answer_scores_nothing g user answer now data score
    answer' now' :
  accepted g user now data score ->
  let g1 := (process_answer g user answer now).1.1 in
  let '(g2, out, r) := process_answer g1 user answer' now' in
  r = Returned /\ scores g2 = scores g1 /\
  (out = [] \/ out = say g [PleaseWait user]).
Proof.
  intros Hacc. cbv zeta.
  pose proof (process_answer_accepted g user answer now data score Hacc) as H1.
  pose proof (process_answer_keeps g user answer now) as Hg1.
  destruct (process_answer g user answer now) as [[g1 out1] r1].
  simpl in *. destruct H1 as (_ & Hans & _).
  pose proof (answered_scores_nothing g1 user answer' now'
                (mk_is_Some _ _ Hans)) as H2.
  destruct (process_answer g1 user answer' now') as [[g2 out2] r2].
  destruct H2 as (? & ? & _ & Hout). split_and!; [done | done |].
  destruct Hout as [? | ->]; [by left | right].
  rewrite Hg1. done.
Qed.

Lemma second_answer_scores_nothing_witness :
  let g := Demo.game_after Demo.world Demo.bot Demo.first_question in
  let g1 := (process_answer g "alice" "b" 100).1.1 in
  let '(g2, out, r) := process_answer g1 "alice" "a" 200 in
  r = Returned /\ scores g2 = scores g1 /\
  (out = [] \/ out = say g [PleaseWait "alice"]).
Proof.
  apply (second_answer_scores_nothing
           (Demo.game_after Demo.world Demo.bot Demo.first_question)
           "alice" "b" 100
           {| answers := [("A", "yes"); ("B", "no")]; correct := "A";
              category := "Science" |} 0 "a" 200).
  constructor; vm_compute; reflexivity.
Defined.

(** X13.  The cooldown.  After a call of [process_answer] that was not
    rejected, every call by the same nick less than [RATE_LIMIT] seconds
    after it is rejected: it is asked to wait and changes nothing, the
    time of its last command included; the calls of any other nick are
    rejected or not as before. *)
Theorem cooldown_after_command g user answer now answer' now' :
  rate_limited g user now = false ->
  now' - now < RATE_LIMIT g ->
  let g1 := (process_answer g user answer now).1.1 in
  process_answer g1 user answer' now'
    = (g1, say g [PleaseWait user], Returned) /\
  forall other t, other <> user ->
    rate_limited g1 other t = rate_limited g other t.
Proof.
  intros Hr Hlt. cbv zeta.
  pose proof (process_answer_keeps g user answer now) as Hg1.
  pose proof (fun other => process_answer_others g user answer now other)
    as Ho.
  assert (last_command_time (process_answer g user answer now).1.1 !! user
          = Some now) as Hl.
  { unfold process_answer. rewrite Hr.
    repeat case_match; simpl; apply lookup_insert_eq. }
  destruct (process_answer g user answer now) as [[g1 out1] r1].
  simpl in *.
  assert (RATE_LIMIT g1 = RATE_LIMIT g) as HR by (by rewrite Hg1).
  assert (channel g1 = channel g) as HC by (by rewrite Hg1).
  split.
  - unfold process_answer, rate_limited. rewrite Hl, HR.
    rewrite bool_decide_eq_true_2 by done. unfold say. by rewrite HC.
  - intros other t Hne. unfold rate_limited. rewrite HR.
    destruct (Ho other Hne) as (_ & -> & _). done.
Qed.

Lemma cooldown_after_command_witness :
  let g := Demo.game_after Demo.world Demo.bot Demo.first_question in
  let g1 := (process_answer g "alice" "b" 100).1.1 in
  process_answer g1 "alice" "a" 101
    = (g1, say g [PleaseWait "alice"], Returned) /\
  forall other t, other <> "alice" ->
    rate_limited g1 other t = rate_limited g other t.
Proof.
  apply (cooldown_after_command
           (Demo.game_after Demo.world Demo.bot Demo.first_question)
           "alice" "b" 100 "a" 101).
  - vm_compute. reflexivity.
  - vm_compute. reflexivity.
Defined.
End Answers.

(** ** The end of a round *)

Section Ending.
Import Quiz Round Observe.

Lemma max_of_upper xs : forall x,
  x <= max_of x xs /\ forall y, y ∈ xs -> y <= max_of x xs.
Proof.
  unfold max_of. induction xs as [| z xs IH]; intros x; simpl.
  - split; [lia | intros y Hy; by apply elem_of_nil in Hy].
  - destruct (IH (Z.max x z)) as [H1 H2]. split; [lia |].
    intros y Hy. apply elem_of_cons in Hy as [-> | Hy]; [lia | by apply H2].
Qed.

Lemma max_of_elem xs : forall x, max_of x xs ∈ x :: xs.
Proof.
  unfold max_of. induction xs as [| z xs IH]; intros x; simpl; [left |].
  specialize (IH (Z.max x z)). apply elem_of_cons in IH as [H | H].
  - rewrite H. destruct (Z.max_spec x z) as [[_ ->] | [_ ->]];
      [right; left | left].
  - by do 2 right.
Qed.

Lemma score_lines_announce_nothing c (f : string -> string)
    (l : list (string * Z)) :
  announced_winners
    (Privmsg c <$> ((λ '(user, score), ScoreLine (f user) score) <$> l)) = [].
Proof. induction l as [| [u s] l IH]; [done |]. by rewrite !fmap_cons. Qed.

Lemma store_scores_announce_nothing (l : list (string * Z)) :
  announced_winners ((λ '(user, score), StoreScore user score) <$> l) = [].
Proof. induction l as [| [u s] l IH]; [done |]. by rewrite !fmap_cons. Qed.

(** X14.  [end_quiz] on a game without scores raises ValueError after
    one blank line and changes nothing.  Otherwise it returns: it
    announces once, as winners, exactly the nicks whose score is the
    greatest of all scores, stores every score once in the order of the
    score table, and leaves the game Idle with no participant and no
    score. *)
Theorem end_quiz_concludes g :
  (scores g = [] -> end_quiz g = (g, say g [Blank], Raised ValueError)) /\
  (scores g <> [] ->
   exists g' out winners max_score,
     end_quiz g = (g', out, Returned) /\
     announced_winners out = [(winners, max_score)] /\
     winners <> [] /\
     (forall user, user ∈ winners <-> (user, max_score) ∈ scores g) /\
     (forall user score, (user, score) ∈ scores g -> score <= max_score) /\
     stored out = scores g /\
     round_state g' = Idle /\ participants g' = [] /\ scores g' = []).
Proof.
  unfold end_quiz. split; [by intros -> |]. intros Hne.
  destruct (scores g) as [| [user0 score0] others] eqn:E; [done |].
  set (m := max_of score0 (Dict.values others)).
  pose proof (max_of_upper (Dict.values others) score0) as [Hm0 Hm].
  pose proof (max_of_elem (Dict.values others) score0) as Hel.
  fold m in Hm0, Hm, Hel.
  assert (Hw : forall user,
            user ∈ Dict.keys (filter (λ x, x.2 = m)
                                ((user0, score0) :: others))
            <-> (user, m) ∈ (user0, score0) :: others).
  { intros user. unfold Dict.keys. rewrite list_elem_of_fmap. split.
    - intros ([u s] & -> & Hin). apply list_elem_of_filter in Hin as [Hs Hin].
      simpl in Hs. by subst s.
    - intros Hin. exists (user, m). split; [done |].
      by apply list_elem_of_filter. }
  eexists _, _, _, m. split; [reflexivity |]. split_and!.
  - unfold say. rewrite !fmap_app. unfold announced_winners.
    rewrite !omap_app. simpl.
    change (omap _ ?l) with (announced_winners l).
    by rewrite score_lines_announce_nothing, store_scores_announce_nothing.
  - assert (exists u, (u, m) ∈ (user0, score0) :: others) as [u Hu].
    { apply elem_of_cons in Hel as [Hel | Hel].
      - exists user0. rewrite Hel. left.
      - unfold Dict.values in Hel. apply list_elem_of_fmap in Hel
          as ([u s] & -> & Hin). exists u. by right. }
    apply Hw in Hu. intros Heq. apply (elem_of_nil u).
    rewrite <- Heq. exact Hu.
  - done.
  - intros user score Hin. apply elem_of_cons in Hin as [[= -> ->] | Hin];
      [done |].
    apply Hm. unfold Dict.values. apply list_elem_of_fmap.
    by exists (user, score).
  - rewrite !stored_app, stored_say, stored_store_scores. done.
  - done.
  - done.
  - done.
Qed.

Lemma end_quiz_concludes_witness :
  exists g' out winners max_score,
    end_quiz (set_scores [("alice", 1); ("bob", 2); ("carol", 2)] Demo.game)
      = (g', out, Returned) /\
    announced_winners out = [(winners, max_score)] /\
    winners <> [] /\
    (forall user, user ∈ winners <->
       (user, max_score) ∈ [("alice", 1); ("bob", 2); ("carol", 2)]) /\
    (forall user score,
       (user, score) ∈ [("alice", 1); ("bob", 2); ("carol", 2)] ->
       score <= max_score) /\
    stored out = [("alice", 1); ("bob", 2); ("carol", 2)] /\
    round_state g' = Idle /\ participants g' = [] /\ scores g' = [].
Proof.
  apply (proj2 (end_quiz_concludes
                  (set_scores [("alice", 1); ("bob", 2); ("carol", 2)]
                     Demo.game))).
  simpl. congruence.
Defined.
End Ending.

(** ** Starting a round *)

Section Starting.
Import Quiz Round Observe.

(** [handle_start_command] changes nothing of the game but the loaded
    questions, the set of asked questions and [joining_allowed]. *)
Lemma handle_start_command_keeps w g category user :
  let g' := (handle_start_command w g category user).1.1 in
  g' = set_joining_allowed (joining_allowed g')
         (set_asked_questions (asked_questions g')
            (set_questions (questions g') g)).
Proof.
  cbv zeta. unfold handle_start_command.
  set (resolved := if String.eqb (Py.lower category) "random" then _ else _).
  destruct resolved as [[fc dc] |]; [| by destruct g].
  destruct (load_questions_uniform w fc) as (qs & ok & _ & H). rewrite H.
  destruct ok; simpl; [| by destruct g].
  destruct (game_active g), (joining_allowed g); by destruct g.
Qed.

(** While a round is recruiting, [handle_start_command] sends one
    notice and starts nothing. *)
Lemma handle_start_command_recruiting w g category user :
  game_active g = false -> joining_allowed g = true ->
  let '(g', out, timer) := handle_start_command w g category user in
  timer = None /\ joining_allowed g' = true /\
  exists m, out = [Notice user m].
Proof.
  intros Ha Hj. unfold handle_start_command.
  set (resolved := if String.eqb (Py.lower category) "random" then _ else _).
  destruct resolved as [[fc dc] |]; [| by eauto].
  destruct (load_questions_uniform w fc) as (qs & ok & _ & H). rewrite H.
  destruct ok; simpl; rewrite ?Ha, ?Hj; simpl; by eauto.
Qed.

(** X15.  [handle_start_command] starts no timer while a round is
    recruiting.  In every other state, a running round included, it
    starts the timer that it would start for a game at rest: during a
    running round the caller is told that a quiz is already active, and
    the new round is announced and scheduled all the same.  When it
    starts a timer it has emptied the set of asked questions and allows
    joining; when it starts none it sends one notice to the caller. *)
Theorem start_command_schedules w g category user :
  let '(g', out, timer) := handle_start_command w g category user in
  timer = (if negb (game_active g) && joining_allowed g then None
           else (handle_start_command w (reset_game g) category user).2) /\
  match timer with
  | Some _ =>
      joining_allowed g' = true /\ asked_questions g' = ∅ /\
      (game_active g = true ->
       head out = Some (Notice user QuizAlreadyActive)) /\
      last out = Some (Mode (channel g) "+m")
  | None =>
      joining_allowed g' = joining_allowed g /\
      exists m, out = [Notice user m]
  end.
Proof.
  unfold handle_start_command.
  set (resolved := if String.eqb (Py.lower category) "random" then _ else _).
  destruct resolved as [[fc dc] |].
  2: { split; [by destruct (negb _ && _) | by eauto]. }
  destruct (load_questions_uniform w fc) as (qs & ok & _ & H). rewrite !H.
  destruct ok; simpl.
  2: { split; [by destruct (negb _ && _) | by eauto]. }
  destruct (game_active g) eqn:Ha, (joining_allowed g) eqn:Hj; simpl;
    rewrite ?Ha, ?Hj; simpl; by eauto.
Qed.

(** X16.  A [!start] during a running round replaces the loaded
    questions under the open question.  If the open question is not among
    the new ones, the call of [start_quiz] that sleeps dies of a KeyError
    when it wakes, having sent and stored nothing, and so does every
    answer of a participant that is not rejected by the cooldown. *)
Theorem start_during_round_loses_question w g category user q :
  game_active g = true ->
  current_question g = Some q ->
  let g' := (handle_start_command w g category user).1.1 in
  Dict.get q (questions g') = None ->
  (forall th, start_quiz_wake g' th = (g', [], Ended (Raised KeyError))) /\
  (forall u answer now,
     rate_limited g' u now = false ->
     Dict.mem u (participants g) = true ->
     answered_participants g !! u = None ->
     (process_answer g' u answer now).2 = Raised KeyError).
Proof.
  intros Ha Hq. cbv zeta.
  pose proof (handle_start_command_keeps w g category user) as Hk.
  cbv zeta in Hk.
  destruct (handle_start_command w g category user) as [[g' out] timer].
  simpl in *. intros Hget.
  assert (game_active g' = true) as Ha' by (by rewrite Hk).
  assert (current_question g' = Some q) as Hq' by (by rewrite Hk).
  assert (participants g' = participants g) as Hp' by (by rewrite Hk).
  assert (answered_participants g' = answered_participants g) as Hans'
    by (by rewrite Hk).
  split.
  - intros th. unfold start_quiz_wake, show_results, current_data.
    by rewrite Hq', Hget.
  - intros u answer now Hr Hm Hans. unfold process_answer. rewrite Hr.
    unfold current_data. simpl. rewrite Ha', Hp', Hm, Hq', Hans', Hans, Hget.
    simpl. rewrite ?bool_decide_eq_true_2 by eauto.
    rewrite ?bool_decide_eq_false_2 by (by intros [? ?]). done.
Qed.

Lemma start_during_round_loses_question_witness :
  let g := Demo.game_after two_categories Demo.bot Demo.first_question in
  let g' := (handle_start_command two_categories g "history" "carol").1.1 in
  (forall th, start_quiz_wake g' th = (g', [], Ended (Raised KeyError))) /\
  (forall u answer now,
     rate_limited g' u now = false ->
     Dict.mem u (participants g) = true ->
     answered_participants g !! u = None ->
     (process_answer g' u answer now).2 = Raised KeyError).
Proof.
  apply (start_during_round_loses_question two_categories
           (Demo.game_after two_categories Demo.bot Demo.first_question)
           "history" "carol" "q1");
    vm_compute; reflexivity.
Defined.
End Starting.

(** ** A round that never starts *)

Section Stranded.
Import Quiz Round Observe Bot.

Lemma stranded_step w b i b' out :
  stranded b -> step w b i = Some (b', out) ->
  stranded b' /\ asked out = [] /\ stored out = [].
Proof.
  intros (Ha & Hj & Hi & Ht & Hth) Hstep. unfold stranded.
  destruct i as [nick cat | nick | nick answer now | nick | connect_ok
                 | joined_nick | rng | k]; simpl in Hstep.
  - (* Pub_start *)
    destruct (connected b); [| done]. simpl in Hstep.
    pose proof (handle_start_command_keeps w (quiz_game b) cat nick) as Hk.
    pose proof (handle_start_command_recruiting w (quiz_game b) cat nick
                  Ha Hj) as Hs.
    cbv zeta in Hk.
    destruct (handle_start_command w (quiz_game b) cat nick)
      as [[g out0] timer].
    simpl in *. destruct Hs as (-> & Hjj & m & ->).
    simplify_eq. simpl. rewrite Ht, Hth, Hjj, Hk. simpl.
    by rewrite Ha, Hi.
  - (* Priv_join *)
    destruct (connected b); [| done]. simpl in Hstep.
    unfold handle_join_command in Hstep. rewrite Ha, Hj in Hstep.
    simpl in Hstep. destruct (Dict.mem nick _); simplify_eq; simpl; done.
  - (* Priv_answer *)
    destruct (connected b); [| done]. simpl in Hstep.
    unfold process_answer in Hstep. simpl in Hstep. rewrite Ha in Hstep.
    simpl in Hstep.
    destruct (rate_limited _ _ _); simplify_eq; simpl; done.
  - (* Admin_stop_game *)
    destruct (connected b); [| done]. simpl in Hstep.
    unfold Admin.stop_game in Hstep. rewrite Ha in Hstep.
    simplify_eq. simpl. done.
  - (* Disconnected *)
    simplify_eq. unfold on_disconnect, cancel_active_game. simpl.
    rewrite Ha. by repeat case_match.
  - (* Joined *)
    destruct (connected b); [| done]. simpl in Hstep.
    unfold on_join in Hstep. rewrite Hi, andb_false_r in Hstep.
    simplify_eq. simpl. done.
  - (* Timer_fires *)
    destruct (connected b); [| done]. simpl in Hstep.
    by rewrite Ht in Hstep.
  - (* Sleep_ends *)
    destruct (connected b); [| done]. simpl in Hstep.
    by rewrite Hth in Hstep.
Qed.

Lemma stranded_run w inputs : forall b b' out,
  stranded b -> run w b inputs = Some (b', out) ->
  stranded b' /\ asked out = [] /\ stored out = [].
Proof.
  induction inputs as [| i inputs IH]; intros b b' out Hs Hrun; simpl in Hrun.
  - by simplify_eq.
  - destruct (step w b i) as [[b1 out1] |] eqn:E1; [| done].
    destruct (run w b1 inputs) as [[b2 out2] |] eqn:E2; [| done].
    simplify_eq.
    destruct (stranded_step _ _ _ _ _ Hs E1) as (Hs1 & Ha1 & Ho1).
    destruct (IH _ _ _ Hs1 E2) as (Hs2 & Ha2 & Ho2).
    by rewrite asked_app, stored_app, Ha1, Ha2, Ho1, Ho2.
Qed.

(** X17.  When the questions cannot be loaded at the time the timer of a
    recruiting round fires, [start_quiz] reports the error and returns
    with the round still recruiting.  From then on no timer is pending
    and no command starts one: whatever happens afterwards, in whatever
    state the files are, no question is ever put and no score stored,
    and the round stays as it is. *)
Theorem failed_load_strands_round w rng b category :
  connected b = true -> timers b = [category] -> threads b = [] ->
  round_state (quiz_game b) = Recruiting ->
  participants (quiz_game b) <> [] ->
  (load_questions w category (quiz_game b)).2 = false ->
  exists b1,
    step w b (Timer_fires rng)
      = Some (b1, [Privmsg (channel (quiz_game b)) UnableToLoadQuestions]) /\
    forall w' inputs b2 out,
      run w' b1 inputs = Some (b2, out) ->
      round_state (quiz_game b2) = Recruiting /\
      timers b2 = [] /\ threads b2 = [] /\
      asked out = [] /\ stored out = [].
Proof.
  intros Hc Ht Hth Hrec Hp Hload.
  assert (game_active (quiz_game b) = false /\
          joining_allowed (quiz_game b) = true /\
          game_interrupted (quiz_game b) = false) as (Ha & Hj & Hi).
  { unfold round_state in Hrec. by repeat case_match. }
  destruct (load_questions_uniform w category) as (qs & ok & _ & H).
  rewrite H in Hload. simpl in Hload. subst ok.
  eexists. split.
  - simpl. rewrite Hc, Ht. simpl.
    unfold start_quiz_begin, start_quiz_setup.
    destruct (participants (quiz_game b)) eqn:E; [done |]. simpl.
    rewrite H. simpl. reflexivity.
  - intros w' inputs b2 out Hrun.
    apply stranded_run in Hrun as ((Ha2 & Hj2 & Hi2 & Ht2 & Hth2) & ? & ?).
    + unfold round_state. by rewrite Ha2, Hi2, Hj2.
    + unfold stranded. simpl. by rewrite Ha, Hj, Hi, Hth.
Qed.

Lemma failed_load_strands_round_witness :
  let b := Demo.bot_after Demo.world Demo.bot Demo.recruiting in
  exists b1,
    step world_without_files b (Timer_fires [])
      = Some (b1, [Privmsg "#quiz" UnableToLoadQuestions]) /\
    forall w' inputs b2 out,
      run w' b1 inputs = Some (b2, out) ->
      round_state (quiz_game b2) = Recruiting /\
      timers b2 = [] /\ threads b2 = [] /\
      asked out = [] /\ stored out = [].
Proof.
  apply (failed_load_strands_round world_without_files []
           (Demo.bot_after Demo.world Demo.bot Demo.recruiting) "Science");
    vm_compute; congruence.
Defined.
End Stranded.

(** ** Scores and participants along a run *)

Section ScoresCover.
Import Quiz Round Observe Bot.











End ScoresCover.

(** ** Reconnecting *)

Section Reconnecting.
Import Quiz Round Bot.

Lemma on_disconnect_settings b connect_ok :
  should_reconnect (on_disconnect b connect_ok) = should_reconnect b /\
  max_reconnection_attempts (on_disconnect b connect_ok)
  = max_reconnection_attempts b.
Proof. unfold on_disconnect. by repeat case_match. Qed.

Lemma on_disconnect_failed b :
  should_reconnect b = true ->
  reconnection_attempts (on_disconnect b false)
  = S (reconnection_attempts b).
Proof.
  intros H. unfold on_disconnect. simpl. rewrite H. simpl. by case_match.
Qed.

(** X19.  The bot gives up reconnecting.  After [n] disconnections in a
    row whose [connect()] failed, the count of attempts has grown by [n],
    and the next disconnection re-establishes the connection exactly if
    [connect()] succeeds and fewer than [max_reconnection_attempts]
    attempts were counted before it; a success sets the count back to
    zero. *)
Theorem reconnect_gives_up b n connect_ok :
  should_reconnect b = true ->
  let b' := Nat.iter n (λ b, on_disconnect b false) b in
  let b'' := on_disconnect b' connect_ok in
  reconnection_attempts b' = (reconnection_attempts b + n)%nat /\
  connected b'' =
    connect_ok &&
    (reconnection_attempts b + n <? max_reconnection_attempts b)%nat /\
  reconnection_attempts b'' =
    if connected b'' then 0%nat else S (reconnection_attempts b + n).
Proof.
  intros Hre. cbv zeta.
  assert (should_reconnect (Nat.iter n (λ b, on_disconnect b false) b) = true
          /\ max_reconnection_attempts
               (Nat.iter n (λ b, on_disconnect b false) b)
             = max_reconnection_attempts b
          /\ reconnection_attempts
               (Nat.iter n (λ b, on_disconnect b false) b)
             = (reconnection_attempts b + n)%nat) as (Hs & Hm & Ha).
  { induction n as [| n (IH1 & IH2 & IH3)]; simpl; [by rewrite Nat.add_0_r |].
    destruct (on_disconnect_settings
                (Nat.iter n (λ b, on_disconnect b false) b) false) as [-> ->].
    rewrite on_disconnect_failed by done. split_and!; [done | done | lia]. }
  split; [done |].
  set (b' := Nat.iter n (λ b, on_disconnect b false) b) in *.
  unfold on_disconnect. simpl. rewrite Hs. simpl. rewrite Hm, Ha.
  destruct (max_reconnection_attempts b <? S (reconnection_attempts b + n))%nat
    eqn:E.
  - apply Nat.ltb_lt in E. simpl.
    assert ((reconnection_attempts b + n <? max_reconnection_attempts b)%nat
            = false) as -> by (apply Nat.ltb_ge; lia).
    by rewrite andb_false_r.
  - apply Nat.ltb_ge in E.
    assert ((reconnection_attempts b + n <? max_reconnection_attempts b)%nat
            = true) as -> by (apply Nat.ltb_lt; lia).
    rewrite andb_true_r. by destruct connect_ok.
Qed.

Lemma reconnect_gives_up_witness :
  let b := Bot.init Demo.game "Quizzer" in
  let b' := Nat.iter 1 (λ b, on_disconnect b false) b in
  let b'' := on_disconnect b' true in
  reconnection_attempts b' = (reconnection_attempts b + 1)%nat /\
  connected b'' =
    true && (reconnection_attempts b + 1 <? max_reconnection_attempts b)%nat /\
  reconnection_attempts b'' =
    if connected b'' then 0%nat else S (reconnection_attempts b + 1).
Proof.
  exact (reconnect_gives_up (Bot.init Demo.game "Quizzer") 1 true eq_refl).
Defined.

(** X23.  [disconnect_then_rejoin] at the bot whose first question has
    just been asked. *)
Lemma disconnect_then_rejoin_witness :
  let b := Demo.bot_after Demo.world Demo.bot Demo.first_question in
  let g1 := quiz_game (on_disconnect b true) in
  game_interrupted g1 = true /\
  scores g1 = scores (quiz_game b) /\
  round_state g1 = Concluded /\
  exists g2 out,
    on_join g1 (nickname b) (nickname b) = (g2, out) /\
    surfaced out ≡ₚ scores (quiz_game b) /\
    stored out = [] /\
    participants g2 = [] /\ scores g2 = [] /\
    round_state g2 = Idle /\
    on_join g2 (nickname b) (nickname b) = (g2, []).
Proof.
  apply (disconnect_then_rejoin
           (Demo.bot_after Demo.world Demo.bot Demo.first_question) true);
    vm_compute; reflexivity.
Defined.
End Reconnecting.

(** ** The admin list *)

Section AdminList.
Import Verifier AdminCommands.

Lemma ascii_lower_idempotent c :
  Py.ascii_lower (Py.ascii_lower c) = Py.ascii_lower c.
Proof. destruct c as [[] [] [] [] [] [] [] []]; reflexivity. Qed.

Lemma lower_idempotent s : Py.lower (Py.lower s) = Py.lower s.
Proof.
  unfold Py.lower. induction s as [| c s IH]; simpl; [done |].
  by rewrite ascii_lower_idempotent, IH.
Qed.

(** X20.  [add_admin], called by an admin for a nick that is not yet in
    the list, with a verifier configured and config.yaml written: the
    lower-cased nick is an admin of [AdminCommands] afterwards, and no
    other nick changes its standing; but the call reports success only
    if the verifier had the nick among its own admins already and the
    hash file could be written.  For a nick unknown to the verifier the
    password is not set: the caller is told that setting the password
    failed because "You are not an admin", and the verifier is as it
    was. *)
Theorem add_admin_unknown_to_verifier cr bcrypt_hashpw ac nick new_admin_nick
    password save_error v :
  is_admin ac nick = true ->
  admin_verifier ac = Some v ->
  is_admin ac (Py.lower new_admin_nick) = false ->
  let '(ac', out, ok) :=
    add_admin cr bcrypt_hashpw ac nick new_admin_nick password None
      save_error in
  is_admin ac' (Py.lower new_admin_nick) = true /\
  (forall a, a <> Py.lower new_admin_nick -> is_admin ac' a = is_admin ac a) /\
  ok = Verifier.is_admin v new_admin_nick && bool_decide (save_error = None) /\
  (Verifier.is_admin v new_admin_nick = false ->
   admin_verifier ac' = Some v /\
   out = [Notice nick ("Error setting password: " +:+ msg_not_admin)]).
Proof.
  intros Hadm Hv Hnew. unfold add_admin, Passwords.set_password.
  rewrite Hadm, Hv. simpl. unfold is_admin in Hnew. rewrite Hnew.
  assert (forall s : gset string,
            bool_decide (Py.lower new_admin_nick
                           ∈ {[Py.lower new_admin_nick]} ∪ s) = true) as H1.
  { intros s. apply bool_decide_eq_true_2, elem_of_union_l.
    by apply elem_of_singleton. }
  assert (forall (s : gset string) a,
            a <> Py.lower new_admin_nick ->
            bool_decide (a ∈ {[Py.lower new_admin_nick]} ∪ s)
            = bool_decide (a ∈ s)) as H2.
  { intros s a Hne. apply bool_decide_ext. rewrite elem_of_union.
    rewrite elem_of_singleton. tauto. }
  destruct (Verifier.is_admin v new_admin_nick); simpl.
  - destruct save_error; simpl; unfold is_admin; simpl;
      (split_and!; [apply H1 | apply H2 | done | done]).
  - unfold is_admin; simpl. split_and!; [apply H1 | apply H2 | done | done].
Qed.

Lemma add_admin_unknown_to_verifier_witness :
  let '(ac', out, ok) :=
    add_admin Demo.crypto id (AdminCommands.init ["alice"] (Some Demo.verifier))
      "alice" "Carol" "pw" None None in
  is_admin ac' "carol" = true /\
  (forall a, a <> "carol" ->
     is_admin ac' a
     = is_admin (AdminCommands.init ["alice"] (Some Demo.verifier)) a) /\
  ok = false /\
  (Verifier.is_admin Demo.verifier "Carol" = false ->
   admin_verifier ac' = Some Demo.verifier /\
   out = [Notice "alice" ("Error setting password: " +:+ msg_not_admin)]).
Proof.
  apply (add_admin_unknown_to_verifier Demo.crypto id
           (AdminCommands.init ["alice"] (Some Demo.verifier))
           "alice" "Carol" "pw" None Demo.verifier);
    vm_compute; reflexivity.
Defined.

(** X21.  [remove_admin] succeeds exactly when the caller is an admin,
    the lower-cased nick to remove is in the list and is not the
    lower-cased nick of the caller, and config.yaml could be written.
    Then that nick is no admin any more and has no password hash;
    otherwise nothing changes.  In no case does the caller lose the
    standing of admin, nor does any nick other than the lower-cased one
    change its standing: an admin listed with an upper-case letter in
    the nick cannot be removed. *)
Theorem remove_admin_effect ac nick admin_to_remove config_error :
  let '(ac', out, ok) := remove_admin ac nick admin_to_remove config_error in
  (ok = true <->
   is_admin ac nick = true /\
   is_admin ac (Py.lower admin_to_remove) = true /\
   Py.lower admin_to_remove <> Py.lower nick /\
   config_error = None) /\
  (ok = true ->
   is_admin ac' (Py.lower admin_to_remove) = false /\
   forall v', admin_verifier ac' = Some v' ->
              password_hashes v' !! Py.lower admin_to_remove = None) /\
  (ok = false -> ac' = ac) /\
  is_admin ac' nick = is_admin ac nick /\
  (forall a, a <> Py.lower admin_to_remove -> is_admin ac' a = is_admin ac a) /\
  (forall a, Py.lower a <> a -> is_admin ac' a = is_admin ac a).
Proof.
  unfold remove_admin.
  destruct (is_admin ac nick) eqn:Hadm; simpl.
  2: { split_and!; try done. split; [done | by intros (? & _)]. }
  match goal with
  | |- context [negb (bool_decide ?P)] => destruct (bool_decide P) eqn:Hin
  end; simpl.
  2: { split_and!; try done. split; [done |]. intros (_ & H & _).
       unfold is_admin in H. congruence. }
  destruct (String.eqb (Py.lower admin_to_remove) (Py.lower nick)) eqn:Heq.
  { apply String.eqb_eq in Heq.
    split_and!; try done. split; [done | by intros (_ & _ & ? & _)]. }
  apply String.eqb_neq in Heq.
  destruct config_error as [e |].
  { split_and!; try done. split; [done | by intros (_ & _ & _ & ?)]. }
  assert (forall a, a <> Py.lower admin_to_remove ->
            bool_decide (a ∈ admin_nicks ac ∖ {[Py.lower admin_to_remove]})
            = bool_decide (a ∈ admin_nicks ac)) as Hother.
  { intros a Hne. apply bool_decide_ext. rewrite elem_of_difference.
    rewrite elem_of_singleton. tauto. }
  split_and!.
  - split; [intros _ | done]. unfold is_admin. by rewrite Hin.
  - intros _. split.
    + unfold is_admin. simpl. apply bool_decide_eq_false_2.
      rewrite elem_of_difference, elem_of_singleton. tauto.
    + intros v'. simpl. destruct (admin_verifier ac) as [v0 |]; [| done].
      simpl. intros [= <-]. simpl. apply lookup_delete_eq.
  - done.
  - unfold is_admin in *. simpl. rewrite Hother; [done |].
    intros ->. apply Heq. by rewrite lower_idempotent.
  - intros a Hne. unfold is_admin. simpl. by apply Hother.
  - intros a Hne. unfold is_admin. simpl. apply Hother.
    intros ->. apply Hne. apply lower_idempotent.
Qed.

(** X22.  [set_rate_limit] changes the limit only, and only when the
    caller is an admin of [AdminCommands] (by the nick as received) and
    the value reads as an integer; anyone else gets no reply.  The sign
    of the value is not checked: with a limit of zero or below, no
    command that comes after the last one of its sender is rejected by
    the cooldown. *)
Theorem set_rate_limit_effect int_of ac g nick new_limit :
  let '(g', out) := set_rate_limit int_of ac g nick new_limit in
  g' = Quiz.set_RATE_LIMIT (Quiz.RATE_LIMIT g') g /\
  (is_admin ac nick = false -> g' = g /\ out = []) /\
  (is_admin ac nick = true ->
   Quiz.RATE_LIMIT g' = default (Quiz.RATE_LIMIT g) (int_of new_limit) /\
   exists text, out = [Notice nick text]) /\
  (Quiz.RATE_LIMIT g' <= 0 ->
   forall user now last answer,
     Quiz.last_command_time g' !! user = Some last -> last <= now ->
     (Quiz.process_answer g' user answer now).1.2
     <> Quiz.say g' [Quiz.PleaseWait user]).
Proof.
  unfold set_rate_limit.
  assert (forall g' : Quiz.QuizGame,
            Quiz.RATE_LIMIT g' <= 0 ->
            forall user now last answer,
              Quiz.last_command_time g' !! user = Some last -> last <= now ->
              (Quiz.process_answer g' user answer now).1.2
              <> Quiz.say g' [Quiz.PleaseWait user]) as Hoff.
  { intros g' Hle user now last answer Hl Hnow.
    unfold Quiz.process_answer, Quiz.rate_limited. rewrite Hl.
    rewrite bool_decide_eq_false_2 by lia.
    repeat case_match; simpl; done. }
  destruct (is_admin ac nick); [destruct (int_of new_limit) as [n |] |];
    (split_and!;
     [by destruct g | done | simpl; by eauto | intros Hle; by apply Hoff]).
Qed.
End AdminList.
